(** * crate.pypi: the release ordering hook and the derived properties of
      [Package] (crate_project/apps/packages/models.py)

    The development embeds the part of the model layer that computes
    something: the [post_save] receiver [version_ordering], and the
    [Package.latest] / [Package.requirement_line] properties.

    - The [Release] table is a list of rows, in the order in which an
      unordered query returns them.  A queryset [update] rewrites rows in
      place and is recorded in a log of the UPDATE statements issued.
    - Code that can raise lives in an exception monad; code that also talks
      to the database lives in a state-and-exception monad over the world.
    - [packages.utils.verlib] is not part of the sources, so the routine is
      parametrised by its interface (class [Verlib]). *)

From Stdlib Require Import ZArith Lia Sorted Ascii String.
From stdpp Require Import base list strings pretty sorting.

Open Scope Z_scope.
Open Scope string_scope.
Open Scope list_scope.

(* ------------------------------------------------------------------ *)
(** ** Exceptions and the two monads                                    *)
(* ------------------------------------------------------------------ *)

Inductive exn : Type :=
| TypeError
| ValueError
| IndexError
| AttributeError
| IrrationalVersionError
| Exception (msg : string).

Inductive result (A : Type) : Type :=
| Ok (a : A)
| Raise (e : exn).
Arguments Ok {A} a.
Arguments Raise {A} e.

Class Monad (m : Type -> Type) : Type := {
  ret : forall {A}, A -> m A;
  bind : forall {A B}, m A -> (A -> m B) -> m B
}.

Notation "x <- c1 ;; c2" := (bind c1 (fun x => c2))
  (at level 100, c1 at next level, right associativity).
Notation "c1 ;; c2" := (bind c1 (fun _ => c2))
  (at level 100, right associativity).

#[export] Instance result_monad : Monad result := {
  ret := fun A a => Ok a;
  bind := fun A B c k => match c with Ok a => k a | Raise e => Raise e end
}.

Definition returns {A} (c : result A) : bool :=
  match c with Ok _ => true | Raise _ => false end.

(** [mapM f l]: apply [f] to the elements from left to right, stopping at
    the first exception. *)
Fixpoint mapM {A B} (f : A -> result B) (l : list A) : result (list B) :=
  match l with
  | [] => ret []
  | x :: l' => y <- f x ;; ys <- mapM f l' ;; ret (y :: ys)
  end.

(* ------------------------------------------------------------------ *)
(** ** The data model                                                   *)
(* ------------------------------------------------------------------ *)

(** A row of [Release].  [created] and [modified] come from
    [TimeStampedModel]; timestamps are microseconds since the epoch.  The
    many-to-many [classifiers] live in a join table and are not a column. *)
Record Release : Type := {
  pk : Z;
  package : Z;                       (* package_id, the foreign key *)
  version : string;
  hidden : bool;
  order : Z;
  platform : string;
  summary : string;
  description : string;
  keywords : string;
  license : string;
  author : string;
  author_email : string;
  maintainer : string;
  maintainer_email : string;
  requires_python : string;
  download_uri : string;
  uris : list (string * string);
  raw_data : option string;
  created : Z;
  modified : Z
}.

#[export] Instance Release_eq_dec : EqDecision Release.
Proof. solve_decision. Defined.

(** The row after [update(order=i)]: a queryset update writes the named
    column only ([modified] is not touched, [save] is not called). *)
Definition set_order (r : Release) (i : Z) : Release :=
  {| pk := pk r; package := package r; version := version r;
     hidden := hidden r; order := i; platform := platform r;
     summary := summary r; description := description r;
     keywords := keywords r; license := license r; author := author r;
     author_email := author_email r; maintainer := maintainer r;
     maintainer_email := maintainer_email r;
     requires_python := requires_python r;
     download_uri := download_uri r; uris := uris r;
     raw_data := raw_data r; created := created r;
     modified := modified r |}.

(** A [Package] object in memory.  [_latest_release] is the attribute that
    [latest] sets on first use: [None] while the object has no such
    attribute, [Some v] once it holds [v] (which may be Python's None). *)
Record Package : Type := {
  p_pk : Z;
  name : string;
  _latest_release : option (option Release)
}.

(** The database as this module sees it: the [Release] table and the
    UPDATE statements issued so far, as (pk, order) pairs. *)
Record World : Type := {
  releases : list Release;
  updates : list (Z * Z)
}.

(** Code with a state: [M] for the hook, which works on the database, and
    [P] for the properties of a [Package] object, which may set an
    attribute of [self]. *)
Definition ST (S A : Type) : Type := S -> result A * S.

#[export] Instance ST_monad {S} : Monad (ST S) := {
  ret := fun A a s => (Ok a, s);
  bind := fun A B c k s =>
    match c s with
    | (Ok a, s') => k a s'
    | (Raise e, s') => (Raise e, s')
    end
}.

Definition lift {S A} (c : result A) : ST S A := fun s => (c, s).
Definition get {S} : ST S S := fun s => (Ok s, s).

Abbreviation M := (ST World).
Abbreviation P := (ST Package).

(** [Release.objects.filter(package__pk=p)], evaluated.  The query has no
    ORDER BY: the rows come as the table has them, and what is proved of
    a later run is stated for every table that run may read, whose rows
    may stand in another order. *)
Definition Release_objects_filter_package (p : Z) : M (list Release) :=
  fun w => (Ok (filter (fun r => package r = p) (releases w)), w).

Definition update_rows (k i : Z) (rows : list Release) : list Release :=
  (fun r => if decide (pk r = k) then set_order r i else r) <$> rows.

(** [Release.objects.filter(pk=k).update(order=i)]. *)
Definition Release_objects_filter_pk_update_order (k i : Z) : M unit :=
  fun w => (Ok tt, {| releases := update_rows k i (releases w);
                      updates := updates w ++ [(k, i)] |}).

(* ------------------------------------------------------------------ *)
(** ** Python built-ins used by the module                              *)
(* ------------------------------------------------------------------ *)

(** [list.sort(key=...)] sorts on the keys with [<] only and is stable.
    [insert_stable] puts an element before the first one that is not
    strictly smaller, so that, inserting from the right, equal keys keep
    their input order.  Every stable sort returns this list when [<] is
    a strict weak order (asymmetric, with a transitive complement); the
    theorems that say which of two elements comes first assume it. *)
Fixpoint insert_stable {K A} (lt : K -> K -> bool) (x : K * A)
    (l : list (K * A)) : list (K * A) :=
  match l with
  | [] => [x]
  | y :: l' => if lt (fst y) (fst x) then y :: insert_stable lt x l'
               else x :: y :: l'
  end.

Fixpoint sort_decorated {K A} (lt : K -> K -> bool) (l : list (K * A))
    : list (K * A) :=
  match l with
  | [] => []
  | x :: l' => insert_stable lt x (sort_decorated lt l')
  end.

(** The keys are computed first, once per element; an exception from the
    key function leaves the sort before anything is compared. *)
Definition list_sort {K A} (key : A -> result K) (lt : K -> K -> bool)
    (l : list A) : result (list A) :=
  keys <- mapM key l ;;
  ret ((sort_decorated lt (zip keys l)).*2).

(** [enumerate(l)] *)
Fixpoint enumerate_from {A} (i : nat) (l : list A) : list (nat * A) :=
  match l with
  | [] => []
  | x :: l' => (i, x) :: enumerate_from (S i) l'
  end.
Definition enumerate {A} (l : list A) : list (nat * A) := enumerate_from 0 l.

(** [s.split(sep)] for a one-character separator. *)
Fixpoint split (sep : ascii) (s : string) : list string :=
  match s with
  | EmptyString => [EmptyString]
  | String c s' =>
      if Ascii.eqb c sep then EmptyString :: split sep s'
      else match split sep s' with
           | h :: t => String c h :: t
           | [] => [String c EmptyString]
           end
  end.

Definition is_digit (c : ascii) : bool :=
  ((48 <=? Z.of_N (N_of_ascii c)) && (Z.of_N (N_of_ascii c) <=? 57))%Z.

Definition is_space (c : ascii) : bool :=
  let n := Z.of_N (N_of_ascii c) in
  ((n =? 32) || ((9 <=? n) && (n <=? 13)))%Z.

Fixpoint lstrip (s : string) : string :=
  match s with
  | String c s' => if is_space c then lstrip s' else s
  | EmptyString => EmptyString
  end.

Definition strip (s : string) : string :=
  String.rev (lstrip (String.rev (lstrip s))).

Fixpoint digits_value (acc : Z) (s : string) : option Z :=
  match s with
  | EmptyString => Some acc
  | String c s' =>
      if is_digit c
      then digits_value (10 * acc + (Z.of_N (N_of_ascii c) - 48)) s'
      else None
  end.

Definition unsigned_value (s : string) : result Z :=
  match s with
  | EmptyString => Raise ValueError
  | _ => match digits_value 0 s with
         | Some n => Ok n
         | None => Raise ValueError
         end
  end.

(** [int(s)] on a string: surrounding white space, an optional sign, then
    decimal digits; anything else is a ValueError. *)
Definition py_int (s : string) : result Z :=
  match strip s with
  | String "-"%char s' => n <- unsigned_value s' ;; ret (- n)
  | String "+"%char s' => unsigned_value s'
  | s' => unsigned_value s'
  end.

(** [l[i]] *)
Definition getitem {A} (l : list A) (i : nat) : result A :=
  match l !! i with
  | Some x => Ok x
  | None => Raise IndexError
  end.

(* ------------------------------------------------------------------ *)
(** ** verlib                                                           *)
(* ------------------------------------------------------------------ *)

(** The interface of [packages.utils.verlib] as models.py uses it; the
    module itself is not among the sources, so everything below takes an
    instance as a parameter.  [suggest_normalized_version] returns a
    normalized string or None, [NormalizedVersion] builds the comparable
    object, [nv_lt] is its [__lt__] and [nv_str] its [__str__].  Both
    calls are allowed to raise. *)
Class Verlib : Type := {
  NormalizedVersionT : Type;
  suggest_normalized_version : string -> result (option string);
  NormalizedVersion : string -> result NormalizedVersionT;
  nv_lt : NormalizedVersionT -> NormalizedVersionT -> bool;
  nv_str : NormalizedVersionT -> string
}.

(* ------------------------------------------------------------------ *)
(** ** models.py                                                        *)
(* ------------------------------------------------------------------ *)

(** The keyword arguments of a signal receiver that the hook looks at;
    [None] is an absent key. *)
Record Kwargs : Type := {
  kw_instance : option Release;
  kw_created : option bool
}.

Inductive model_class : Type := Release_class | Package_class.

Definition set_latest_release (self : Package) (v : option Release) : Package :=
  {| p_pk := p_pk self; name := name self; _latest_release := Some v |}.

(** [self.releases.order_by("-order")]: descending on [order]. *)
Definition order_by_desc_order (rows : list Release) : list Release :=
  (sort_decorated (fun a b => Z.ltb b a) (zip (order <$> rows) rows)).*2.

Section Models.
Context {V : Verlib}.

(** The first loop of [version_ordering]. *)
Fixpoint partition_loop (rels versions dated : list Release)
    : result (list Release * list Release) :=
  match rels with
  | [] => ret (versions, dated)
  | release :: rest =>
      normalized <- suggest_normalized_version (version release) ;;
      match normalized with
      | Some _ => partition_loop rest (versions ++ [release]) dated
      | None => partition_loop rest versions (dated ++ [release])
      end
  end.

(** [lambda x: verlib.NormalizedVersion(
       verlib.suggest_normalized_version(x.version))] *)
Definition version_key (x : Release) : result NormalizedVersionT :=
  normalized <- suggest_normalized_version (version x) ;;
  match normalized with
  | Some s => NormalizedVersion s
  | None => Raise TypeError
  end.

(** The second loop, over [enumerate(dated + versions)]. *)
Fixpoint update_loop (l : list (nat * Release)) : M unit :=
  match l with
  | [] => ret tt
  | (i, release) :: rest =>
      (if decide (order release <> Z.of_nat i)
       then Release_objects_filter_pk_update_order (pk release) (Z.of_nat i)
       else ret tt) ;;
      update_loop rest
  end.

Definition version_ordering (sender : model_class) (kwargs : Kwargs)
    : M unit :=
  match kw_instance kwargs with
  | Some instance =>
      if default true (kw_created kwargs) then
        rels <- Release_objects_filter_package (package instance) ;;
        vd <- lift (partition_loop rels [] []) ;;
        versions <- lift (list_sort version_key nv_lt (fst vd)) ;;
        dated <- lift (list_sort (fun x => Ok (created x)) Z.ltb (snd vd)) ;;
        update_loop (enumerate (dated ++ versions))
      else ret tt
  | None => ret tt
  end.

(** [Package.latest]; the database is only read. *)
Definition latest (w : World) : P (option Release) := fun self =>
  let self :=
    match _latest_release self with
    | None =>
        let rels := take 1 (order_by_desc_order
                      (filter (fun r => package r = p_pk self) (releases w))) in
        match rels with
        | r :: _ => set_latest_release self (Some r)
        | [] => set_latest_release self None
        end
    | Some _ => self
    end in
  (Ok (default None (_latest_release self)), self).

(** [o.version], where [o] may be None. *)
Definition getattr_version (o : option Release) : result string :=
  match o with
  | Some r => Ok (version r)
  | None => Raise AttributeError
  end.

(** [Package.requirement_line]; falling off the end returns None. *)
Definition requirement_line (w : World) : P (option string) :=
  l <- latest w ;;
  match l with
  | Some _ =>
      l <- latest w ;;
      v <- lift (getattr_version l) ;;
      normalized <- lift (suggest_normalized_version v) ;;
      match normalized with
      | Some n =>
          nv <- lift (NormalizedVersion n) ;;
          let ver := nv_str nv in
          major <- lift (getitem (split "."%char ver) 0) ;;
          minor_s <- lift (getitem (split "."%char ver) 1) ;;
          minor <- lift (py_int minor_s) ;;
          let next_version := major +:+ "." +:+ pretty (minor + 1) in
          self <- get ;;
          l <- latest w ;;
          current_version <- lift (getattr_version l) ;;
          ret (Some (name self +:+ ">=" +:+ current_version +:+ ",<"
                       +:+ next_version))
      | None =>
          self <- get ;;
          l <- latest w ;;
          v <- lift (getattr_version l) ;;
          ret (Some (name self +:+ "==" +:+ v))
      end
  | None => ret None
  end.
End Models.

(* ------------------------------------------------------------------ *)
(** ** Concrete instances, for evaluating the code                      *)
(* ------------------------------------------------------------------ *)

Fixpoint lex_lt (a b : list Z) : bool :=
  match a, b with
  | [], [] => false
  | [], _ :: _ => true
  | _ :: _, [] => false
  | x :: a', y :: b' => (x <? y)%Z || ((x =? y)%Z && lex_lt a' b')
  end.

Fixpoint join (sep : string) (l : list string) : string :=
  match l with
  | [] => ""
  | [x] => x
  | x :: l' => x +:+ sep +:+ join sep l'
  end.

(** Modelled from the spec: [packages.utils.verlib] is missing from the
    sources.  This instance follows section 6 of the specification
    (parse returns a normalized form or none; compare orders two
    normalized versions) on versions made of dot-separated decimal
    numbers, compared number by number; every other string is
    unparseable.  It never raises on what [suggest_normalized_version]
    accepted. *)
#[export] Instance dotted_verlib : Verlib := {
  NormalizedVersionT := list Z;
  suggest_normalized_version := fun s =>
    match mapM unsigned_value (split "."%char s) with
    | Ok _ => Ok (Some s)
    | Raise _ => Ok None
    end;
  NormalizedVersion := fun s =>
    match mapM unsigned_value (split "."%char s) with
    | Ok l => Ok l
    | Raise _ => Raise IrrationalVersionError
    end;
  nv_lt := lex_lt;
  nv_str := fun l => join "." (pretty <$> l)
}.

(** Modelled from the spec: a normalizer as the failure semantics of
    section 4.1 envisage it, one that raises on a string it cannot
    parse where [dotted_verlib] returns None. *)
Definition raising_verlib : Verlib := {|
  NormalizedVersionT := list Z;
  suggest_normalized_version := fun s =>
    match mapM unsigned_value (split "."%char s) with
    | Ok _ => Ok (Some s)
    | Raise _ => Raise IrrationalVersionError
    end;
  NormalizedVersion := fun s =>
    match mapM unsigned_value (split "."%char s) with
    | Ok l => Ok l
    | Raise _ => Raise IrrationalVersionError
    end;
  nv_lt := lex_lt;
  nv_str := fun l => join "." (pretty <$> l)
|}.

(** A freshly created row: every column but the given ones empty. *)
Definition new_release (k p : Z) (v : string) (t o : Z) : Release :=
  {| pk := k; package := p; version := v; hidden := false; order := o;
     platform := ""; summary := ""; description := ""; keywords := "";
     license := ""; author := ""; author_email := ""; maintainer := "";
     maintainer_email := ""; requires_python := ""; download_uri := "";
     uris := []; raw_data := None; created := t; modified := t |}.

Definition world_of (rows : list Release) : World :=
  {| releases := rows; updates := [] |}.

Definition created_kwargs (instance : Release) : Kwargs :=
  {| kw_instance := Some instance; kw_created := Some true |}.

(** The example of section 8 of the specification: package 7 has the
    releases "2023-01-dev", "1.0" and "2.0", here as an unordered query
    returns them; package 8 has one release. *)
Definition r_dev : Release := new_release 1 7 "2023-01-dev" 300 0.
Definition r_2_0 : Release := new_release 2 7 "2.0" 100 0.
Definition r_1_0 : Release := new_release 3 7 "1.0" 200 0.
Definition r_other : Release := new_release 4 8 "0.1" 50 0.

Definition demo_world : World := world_of [r_2_0; r_dev; r_other; r_1_0].

(** A [Package] object for package 7, as fetched, and the same object
    after [latest] was evaluated while "1.0" was the only release. *)
Definition pkg7 : Package :=
  {| p_pk := 7; name := "pkg"; _latest_release := None |}.

Definition pkg7_used : Package := snd (latest (world_of [r_1_0]) pkg7).

(* ------------------------------------------------------------------ *)
(** ** Vocabulary of the specification                                  *)
(* ------------------------------------------------------------------ *)

(** Ascending, as a sort that only asks [<] sees it: the right-hand
    element is not smaller.  [key_le] is on decorated elements,
    [sorted_le] on the elements themselves. *)
Definition key_le {K A} (lt : K -> K -> bool) (a b : K * A) : Prop :=
  lt (fst b) (fst a) = false.

Definition sorted_le {K A} (key : A -> result K) (lt : K -> K -> bool)
    (a b : A) : Prop :=
  match key a, key b with
  | Ok ka, Ok kb => lt kb ka = false
  | _, _ => False
  end.

Section Vocabulary.
Context {V : Verlib}.

(** A release is versioned when its version string normalizes and dated
    when normalization returns None. *)
Definition is_versioned (r : Release) : bool :=
  match suggest_normalized_version (version r) with
  | Ok (Some _) => true
  | _ => false
  end.

Definition is_dated (r : Release) : bool :=
  match suggest_normalized_version (version r) with
  | Ok None => true
  | _ => false
  end.

(** verlib returns normally on the release: normalization does, and so
    does the construction of the comparable version when there is one. *)
Definition verlib_returns (r : Release) : bool :=
  match suggest_normalized_version (version r) with
  | Ok (Some n) => returns (NormalizedVersion n)
  | Ok None => true
  | Raise _ => false
  end.

(** Ascending by normalized-version comparison, and by creation time. *)
Definition version_le (a b : Release) : Prop :=
  sorted_le version_key nv_lt a b.

Definition created_le (a b : Release) : Prop := (created a <= created b)%Z.

Definition package_releases (p : Z) (w : World) : list Release :=
  filter (fun r => package r = p) (releases w).

(** The sequence [dated + versions] that the hook enumerates. *)
Definition computed_sequence (rels : list Release) : result (list Release) :=
  vd <- partition_loop rels [] [] ;;
  versions <- list_sort version_key nv_lt (fst vd) ;;
  dated <- list_sort (fun x => Ok (created x)) Z.ltb (snd vd) ;;
  ret (dated ++ versions).

(** What [Model.save] sends, after writing the row, to the receivers
    connected with [sender=Release]: the instance and whether the row
    was inserted. *)
Definition post_save_Release (instance : Release) (created : bool) : M unit :=
  version_ordering Release_class
    {| kw_instance := Some instance; kw_created := Some created |}.
End Vocabulary.

(** The 0-based position of the release with primary key [k]. *)
Fixpoint position_of (k : Z) (l : list Release) : option nat :=
  match l with
  | [] => None
  | x :: l' => if decide (pk x = k) then Some 0%nat
               else S <$> position_of k l'
  end.

(** The specification's last step: every release of the sequence gets its
    position as [order]; nothing else changes. *)
Definition assign_positions (sequence rows : list Release) : list Release :=
  (fun r => match position_of (pk r) sequence with
            | Some i => set_order r (Z.of_nat i)
            | None => r
            end) <$> rows.

(** What the second loop does to one row, and what it writes. *)
Definition step_row (r : Release) (x : nat * Release) : Release :=
  if decide (order (snd x) <> Z.of_nat (fst x))
  then (if decide (pk r = pk (snd x)) then set_order r (Z.of_nat (fst x)) else r)
  else r.

Definition writes_of (l : list (nat * Release)) : list (Z * Z) :=
  omap (fun x => if decide (order (snd x) <> Z.of_nat (fst x))
                 then Some (pk (snd x), Z.of_nat (fst x)) else None) l.

(** The claim about [latest]: it returns a release of the package whose
    [order] no other release of the package exceeds. *)
Definition has_release (w : World) (self : Package) : Prop :=
  exists r, r ∈ releases w /\ package r = p_pk self.

Definition returns_highest_order (w : World) (self : Package) : Prop :=
  exists r, fst (latest w self) = Ok (Some r) /\
    r ∈ releases w /\ package r = p_pk self /\
    forall r', r' ∈ releases w -> package r' = p_pk self ->
               (order r' <= order r)%Z.

(** The table after "2.0" was created as the second release of package 7
    and the hook has run; and the table after the releases of package 7
    were deleted. *)
Definition world_after_2_0 : World :=
  snd (post_save_Release (V := dotted_verlib) r_2_0 true
         (world_of [r_1_0; r_2_0])).

Definition world_after_delete : World := world_of [r_other].

(* ------------------------------------------------------------------ *)
(** ** The rest of models.py: release files and the display properties  *)
(* ------------------------------------------------------------------ *)

(** A row of [ReleaseFile]; [file] is the stored name of the upload. *)
Record ReleaseFile : Type := {
  rf_pk : Z;
  release : Z;                       (* release_id, the foreign key *)
  type : string;
  file : string;
  filename : option string;
  digest : string;
  python_version : string;
  downloads : Z;
  comment : string;
  rf_created : Z;
  rf_modified : Z
}.

Definition sumZ (l : list Z) : Z := foldr Z.add 0 l.

(** [.aggregate(total_downloads=Sum("downloads"))["total_downloads"]]:
    SQL's SUM over no rows is NULL, which the ORM hands back as None. *)
Definition aggregate_Sum (l : list Z) : option Z :=
  match l with
  | [] => None
  | _ => Some (sumZ l)
  end.

(** [ReleaseFile.objects.filter(release__package__pk=p)]: every file row
    joined with the release rows its foreign key points to, kept when the
    release belongs to package [p]. *)
Definition ReleaseFile_objects_filter_release_package (p : Z)
    (files : list ReleaseFile) (w : World) : list ReleaseFile :=
  concat ((fun f => (fun _ => f) <$>
                      filter (fun r => pk r = release f /\ package r = p)
                             (releases w)) <$> files).

(** [ReleaseFile.objects.filter(release__pk=k)]: the foreign key column
    itself, no join. *)
Definition ReleaseFile_objects_filter_release (k : Z)
    (files : list ReleaseFile) : list ReleaseFile :=
  filter (fun f => release f = k) files.

(** [Package.downloads] *)
Definition Package_downloads (files : list ReleaseFile) (w : World)
    (self : Package) : Z :=
  let total_downloads :=
    aggregate_Sum (downloads <$>
      ReleaseFile_objects_filter_release_package (p_pk self) files w) in
  match total_downloads with
  | None => 0
  | Some t => t
  end.

(** [Release.downloads] *)
Definition Release_downloads (files : list ReleaseFile) (self : Release) : Z :=
  let total_downloads :=
    aggregate_Sum (downloads <$>
      ReleaseFile_objects_filter_release (pk self) files) in
  match total_downloads with
  | None => 0
  | Some t => t
  end.

(** [s.lower()] on ASCII letters. *)
Definition lower_ascii (c : ascii) : ascii :=
  let n := N_of_ascii c in
  if ((65 <=? n) && (n <=? 90))%N then ascii_of_N (n + 32) else c.

Fixpoint lower (s : string) : string :=
  match s with
  | EmptyString => EmptyString
  | String c s' => String (lower_ascii c) (lower s')
  end.

(** [ReleaseFile.get_python_version_display] *)
Definition get_python_version_display (self : ReleaseFile) : string :=
  if decide (lower (python_version self) = "source") then ""
  else python_version self.

(** [os.path.basename(p)]: what follows the last slash. *)
Definition basename (p : string) : string :=
  default "" (last (split "/"%char p)).

(** [ReleaseFile.__unicode__] *)
Definition ReleaseFile_unicode (self : ReleaseFile) : string :=
  basename (file self).

(** [self.package] on a release: the row of [Package] the foreign key
    points to, DoesNotExist when there is none. *)
Definition Release_package (packages : list Package) (self : Release)
    : result Package :=
  match list_find (fun p => p_pk p = package self) packages with
  | Some (_, p) => Ok p
  | None => Raise (Exception "DoesNotExist")
  end.

(** [Package.install_command] *)
Definition Package_install_command (self : Package) : string :=
  "pip install " +:+ name self.

(** [Release.install_command] *)
Definition Release_install_command (packages : list Package) (self : Release)
    : result string :=
  p <- Release_package packages self ;;
  ret ("pip install " +:+ name p +:+ "==" +:+ version self).

(** [Release.__unicode__] *)
Definition Release_unicode (packages : list Package) (self : Release)
    : result string :=
  p <- Release_package packages self ;;
  ret (name p +:+ " " +:+ version self).

Section ReleaseProperties.
Context {V : Verlib}.

(** [Release.requirement_line] *)
Definition Release_requirement_line (packages : list Package) (self : Release)
    : result string :=
  normalized <- suggest_normalized_version (version self) ;;
  match normalized with
  | Some n =>
      nv <- NormalizedVersion n ;;
      let ver := nv_str nv in
      major <- getitem (split "."%char ver) 0 ;;
      minor_s <- getitem (split "."%char ver) 1 ;;
      minor <- py_int minor_s ;;
      let next_version := major +:+ "." +:+ pretty (minor + 1) in
      p <- Release_package packages self ;;
      ret (name p +:+ ">=" +:+ version self +:+ ",<" +:+ next_version)
  | None =>
      p <- Release_package packages self ;;
      ret (name p +:+ "==" +:+ version self)
  end.
End ReleaseProperties.

(** [a] comes before [b] in [l]. *)
Definition before {A} (a b : A) (l : list A) : Prop :=
  exists l1 l2 l3, l = l1 ++ a :: l2 ++ b :: l3.

(** A string has a character that [int] accepts nowhere: not a digit,
    not white space, not a sign. *)
Definition int_rejects (c : ascii) : bool :=
  negb (is_digit c) && negb (is_space c)
  && negb (Ascii.eqb c "-") && negb (Ascii.eqb c "+").

Fixpoint has_char (P : ascii -> bool) (s : string) : bool :=
  match s with
  | EmptyString => false
  | String c s' => P c || has_char P s'
  end.

(** Example rows: two files of release "1.0" and one of "2.0" of package
    7, one file of the release of package 8; and the package rows. *)
Definition new_file (k r : Z) (path v : string) (n : Z) : ReleaseFile :=
  {| rf_pk := k; release := r; type := "sdist"; file := path;
     filename := None; digest := ""; python_version := v; downloads := n;
     comment := ""; rf_created := 0; rf_modified := 0 |}.

Definition demo_files : list ReleaseFile :=
  [ new_file 1 3 "packages/pkg-1.0.tar.gz" "source" 10;
    new_file 2 3 "packages/pkg-1.0-py2.7.egg" "2.7" 5;
    new_file 3 2 "packages/pkg-2.0.tar.gz" "Source" 7;
    new_file 4 4 "packages/other-0.1.tar.gz" "source" 1 ].

Definition demo_packages : list Package :=
  [ {| p_pk := 7; name := "pkg"; _latest_release := None |};
    {| p_pk := 8; name := "other"; _latest_release := None |} ].

(** Two more dated releases of package 7, one created together with
    "2023-01-dev" and one before it, and the table holding them. *)
Definition r_beta : Release := new_release 5 7 "2022-beta" 300 0.
Definition r_alpha : Release := new_release 6 7 "2021-alpha" 250 0.

Definition dated_world : World := world_of [r_dev; r_beta; r_1_0; r_alpha].

(** Package 7 before "2.0" is created. *)
Definition world_before_2_0 : World := world_of [r_1_0; r_dev].

(** Modelled from the spec: [packages.utils.verlib] is missing from the
    sources.  This instance stands for a normalizer whose normalized
    versions print as the version string itself, the way a pre-release
    such as "1.0a1" keeps its tag; it accepts the strings that start with
    a digit. *)
Definition verbatim_verlib : Verlib := {|
  NormalizedVersionT := string;
  suggest_normalized_version := fun s =>
    match s with
    | String c _ => if is_digit c then Ok (Some s) else Ok None
    | EmptyString => Ok None
    end;
  NormalizedVersion := fun s => Ok s;
  nv_lt := fun a b => String.ltb a b;
  nv_str := fun s => s
|}.

Definition r_1_0a1 : Release := new_release 9 7 "1.0a1" 400 0.
Definition r_7 : Release := new_release 10 7 "7" 500 0.

(** No two releases of the list are tied: two dated ones were not created
    at the same time, and two versioned ones do not have normalized
    versions neither of which is smaller. *)
Definition no_tied_keys {V : Verlib} (rels : list Release) : Prop :=
  (forall a b, a ∈ rels -> b ∈ rels ->
     is_dated a = true -> is_dated b = true ->
     created a = created b -> a = b) /\
  (forall a b ka kb, a ∈ rels -> b ∈ rels ->
     version_key a = Ok ka -> version_key b = Ok kb ->
     nv_lt ka kb = false -> nv_lt kb ka = false -> a = b).

(** Two dated releases created at the same time; the table after the hook
    has run on them; and the same rows as a later query returns them, in
    the other order. *)
Definition tied_world : World := world_of [r_dev; r_beta].

Definition tied_world_after : World :=
  snd (version_ordering (V := dotted_verlib) Release_class
         (created_kwargs r_beta) tied_world).

Definition tied_world_reread : World :=
  {| releases := reverse (releases tied_world_after);
     updates := updates tied_world_after |}.

(** The example table after a run, with its rows in the reverse order. *)
Definition demo_world_reread : World :=
  {| releases :=
       reverse (releases (snd (version_ordering (V := dotted_verlib)
                                 Release_class (created_kwargs r_1_0)
                                 demo_world)));
     updates :=
       updates (snd (version_ordering (V := dotted_verlib) Release_class
                       (created_kwargs r_1_0) demo_world)) |}.

(** Package 7 after a run on "1.0" and "2023-01-dev", with the newly
    inserted "2.0" returned first by the next query. *)
Definition world_with_2_0 : World :=
  {| releases :=
       r_2_0 :: releases (snd (version_ordering (V := dotted_verlib)
                                 Release_class (created_kwargs r_1_0)
                                 world_before_2_0));
     updates :=
       updates (snd (version_ordering (V := dotted_verlib) Release_class
                       (created_kwargs r_1_0) world_before_2_0)) |}.

(* ------------------------------------------------------------------ *)
(** * Lemmas                                                            *)
(* ------------------------------------------------------------------ *)

(** ** Monads *)

Lemma mapM_Forall2 {A B} (f : A -> result B) l ys :
  mapM f l = Ok ys -> Forall2 (fun x y => f x = Ok y) l ys.
Proof.
  revert ys. induction l as [|x l IH]; intros ys H; simpl in H.
  - injection H as <-. constructor.
  - destruct (f x) as [y|e] eqn:Hx; [|discriminate].
    destruct (mapM f l) as [ys'|e]; [|discriminate].
    injection H as <-. constructor; auto.
Qed.

Lemma mapM_returns {A B} (f : A -> result B) l :
  Forall (fun x => returns (f x) = true) l -> exists ys, mapM f l = Ok ys.
Proof.
  induction 1 as [|x l Hx _ [ys IH]]; simpl; [by eexists|].
  destruct (f x); [|discriminate]. rewrite IH. by eexists.
Qed.

Lemma mapM_fmap {A B C} (f : A -> result B) (g : C -> A) l :
  mapM f (g <$> l) = mapM (f ∘ g) l.
Proof. induction l as [|x l IH]; csimpl; [done|]. by rewrite IH. Qed.

Lemma mapM_ext {A B} (f g : A -> result B) l :
  (forall x, f x = g x) -> mapM f l = mapM g l.
Proof. intros E. induction l as [|x l IH]; simpl; [done|]. by rewrite E, IH. Qed.

(** ** The stable sort *)

Section Sorting.
Context {K A : Type} (lt : K -> K -> bool).

Lemma insert_stable_Permutation (x : K * A) l :
  insert_stable lt x l ≡ₚ x :: l.
Proof.
  induction l as [|y l IH]; simpl; [done|].
  destruct (lt (fst y) (fst x)); [|done].
  rewrite IH. apply Permutation_swap.
Qed.

Lemma sort_decorated_Permutation (l : list (K * A)) :
  sort_decorated lt l ≡ₚ l.
Proof.
  induction l as [|x l IH]; simpl; [done|].
  by rewrite insert_stable_Permutation, IH.
Qed.

(** Adjacent elements of the output are in order as soon as [lt] is
    asymmetric. *)
Hypothesis lt_asym : forall a b, lt a b = true -> lt b a = false.

Lemma insert_stable_Sorted (x : K * A) l :
  Sorted (key_le lt) l -> Sorted (key_le lt) (insert_stable lt x l).
Proof.
  induction l as [|y l IH]; simpl; intros Hs.
  - repeat constructor.
  - destruct (lt (fst y) (fst x)) eqn:Hyx.
    + apply Sorted_inv in Hs as [Hs Hhd]. constructor; [auto|].
      destruct l as [|z l]; simpl.
      * constructor. by apply lt_asym.
      * destruct (lt (fst z) (fst x)).
        -- constructor. by apply HdRel_inv in Hhd.
        -- constructor. by apply lt_asym.
    + constructor; [done|]. by constructor.
Qed.

Lemma sort_decorated_Sorted (l : list (K * A)) :
  Sorted (key_le lt) (sort_decorated lt l).
Proof.
  induction l as [|x l IH]; simpl; [constructor|].
  by apply insert_stable_Sorted.
Qed.
End Sorting.

Lemma sort_decorated_fmap {K A B} (lt : K -> K -> bool) (f : A -> B)
    (l : list (K * A)) :
  sort_decorated lt (prod_map id f <$> l)
  = prod_map id f <$> sort_decorated lt l.
Proof.
  induction l as [|x l IH]; csimpl; [done|]. rewrite IH.
  generalize (sort_decorated lt l). clear IH.
  induction l0 as [|y l0 IH]; csimpl; [done|].
  destruct (lt (fst y) (fst x)); csimpl; [by rewrite IH|done].
Qed.

Lemma Sorted_fmap_elem_of {A B} (R1 : A -> A -> Prop) (R2 : B -> B -> Prop)
    (f : A -> B) (l : list A) :
  (forall a b, a ∈ l -> b ∈ l -> R1 a b -> R2 (f a) (f b)) ->
  Sorted R1 l -> Sorted R2 (f <$> l).
Proof.
  induction l as [|x l IH]; intros HR Hs; csimpl; [constructor|].
  apply Sorted_inv in Hs as [Hs Hhd]. constructor.
  - apply IH; [|done]. intros a b Ha Hb. apply HR; by constructor.
  - destruct Hhd as [|y l Hxy]; csimpl; constructor.
    apply HR; [by constructor| |done]. constructor. by constructor.
Qed.

Section ListSort.
Context {K A : Type} (key : A -> result K) (lt : K -> K -> bool).

Lemma list_sort_Permutation l l' : list_sort key lt l = Ok l' -> l' ≡ₚ l.
Proof.
  unfold list_sort; simpl. destruct (mapM key l) as [ks|] eqn:E; [|done].
  intros [= <-]. apply mapM_Forall2, Forall2_length in E.
  rewrite sort_decorated_Permutation. rewrite snd_zip; [done|lia].
Qed.

Lemma list_sort_returns l :
  Forall (fun x => returns (key x) = true) l -> exists l', list_sort key lt l = Ok l'.
Proof.
  intros H. apply mapM_returns in H as [ks E].
  unfold list_sort; simpl. rewrite E. by eexists.
Qed.

Lemma list_sort_Sorted l l' :
  (forall a b, lt a b = true -> lt b a = false) ->
  list_sort key lt l = Ok l' -> Sorted (sorted_le key lt) l'.
Proof.
  intros Hasym. unfold list_sort; simpl.
  destruct (mapM key l) as [ks|] eqn:E; [|done]. intros [= <-].
  apply mapM_Forall2 in E.
  assert (Hk : Forall (fun p => key (snd p) = Ok (fst p)) (zip ks l)).
  { clear -E. induction E; csimpl; constructor; auto. }
  rewrite <- (sort_decorated_Permutation lt) in Hk.
  rewrite Forall_forall in Hk.
  apply (Sorted_fmap_elem_of (key_le lt)); [|by apply sort_decorated_Sorted].
  intros a b Ha Hb Hab. unfold sorted_le.
  by rewrite (Hk _ Ha), (Hk _ Hb).
Qed.

Lemma list_sort_fmap (f : A -> A) l l' :
  (forall x, key (f x) = key x) ->
  list_sort key lt l = Ok l' -> list_sort key lt (f <$> l) = Ok (f <$> l').
Proof.
  intros Hf. unfold list_sort; simpl. rewrite mapM_fmap.
  rewrite (mapM_ext (key ∘ f) key) by (intros x; apply Hf).
  destruct (mapM key l) as [ks|]; [|done]. intros [= <-]. f_equal.
  change (zip ks (f <$> l)) with (zip_with pair ks (f <$> l)).
  rewrite zip_with_fmap_r.
  replace (zip_with (fun x z => (x, f z)) ks l)
    with (prod_map id f <$> zip ks l).
  - rewrite sort_decorated_fmap. rewrite <- !list_fmap_compose.
    by apply list_fmap_ext.
  - clear. revert l. induction ks as [|k ks IH]; intros [|x l]; csimpl;
      [done..|]. by rewrite IH.
Qed.

Lemma list_sort_nil : list_sort key lt [] = Ok [].
Proof. done. Qed.

Lemma list_sort_singleton x :
  returns (key x) = true -> list_sort key lt [x] = Ok [x].
Proof. unfold list_sort; simpl. by destruct (key x). Qed.
End ListSort.

(** ** The two loops of the hook *)

Lemma set_order_id r : set_order r (order r) = r.
Proof. by destruct r. Qed.

Lemma filter_fmap_same {A} (P : A -> Prop) `{!forall x, Decision (P x)}
    (f : A -> A) (l : list A) :
  (forall x, P (f x) <-> P x) -> filter P (f <$> l) = f <$> filter P l.
Proof.
  intros Hf. induction l as [|x l IH]; csimpl; [done|].
  rewrite !filter_cons. destruct (decide (P (f x))) as [p|n], (decide (P x)) as [p'|n'];
    csimpl; [by rewrite IH|exfalso; apply n'; by apply Hf
            |exfalso; apply n; by apply Hf|done].
Qed.

Section Loops.
Context {V : Verlib}.

Lemma verlib_returns_suggest r :
  verlib_returns r = true ->
  returns (suggest_normalized_version (version r)) = true.
Proof. unfold verlib_returns. by destruct (suggest_normalized_version _). Qed.

Lemma verlib_returns_key r :
  verlib_returns r = true -> is_versioned r = true ->
  returns (version_key r) = true.
Proof.
  unfold verlib_returns, is_versioned, version_key; simpl.
  by destruct (suggest_normalized_version _) as [[?|]|].
Qed.

Lemma dated_or_versioned r :
  verlib_returns r = true -> is_dated r = negb (is_versioned r).
Proof.
  unfold verlib_returns, is_versioned, is_dated.
  by destruct (suggest_normalized_version _) as [[?|]|].
Qed.

Lemma partition_loop_returns rels versions dated :
  Forall (fun r => returns (suggest_normalized_version (version r)) = true)
         rels ->
  partition_loop rels versions dated
  = Ok (versions ++ filter (fun r => is_versioned r) rels,
        dated ++ filter (fun r => is_dated r) rels).
Proof.
  intros H. revert versions dated.
  induction H as [|r rels Hr _ IH]; intros versions dated; simpl.
  - by rewrite !filter_nil, !app_nil_r.
  - rewrite !filter_cons. unfold is_dated, is_versioned in *.
    destruct (suggest_normalized_version (version r)) as [[n|]|];
      try done; simpl; rewrite IH, <- ?app_assoc; done.
Qed.


Lemma computed_sequence_returns rels :
  Forall (fun r => verlib_returns r = true) rels ->
  exists dated versions,
    list_sort (fun x => Ok (created x)) Z.ltb
      (filter (fun r => is_dated r) rels) = Ok dated /\
    list_sort version_key nv_lt
      (filter (fun r => is_versioned r) rels) = Ok versions /\
    partition_loop rels [] []
    = Ok (filter (fun r => is_versioned r) rels,
          filter (fun r => is_dated r) rels) /\
    computed_sequence rels = Ok (dated ++ versions).
Proof.
  intros H. unfold computed_sequence.
  assert (partition_loop rels [] []
          = Ok (filter (fun r => is_versioned r) rels,
                filter (fun r => is_dated r) rels)) as Hp.
  { apply (partition_loop_returns rels [] []).
    eapply Forall_impl; [exact H|]. apply verlib_returns_suggest. }
  destruct (list_sort_returns version_key nv_lt
              (filter (fun r => is_versioned r) rels)) as [versions Hv].
  { rewrite Forall_forall in H. apply Forall_forall. intros r Hr.
    apply list_elem_of_filter in Hr as [Hr1 Hr2].
    apply verlib_returns_key; [by apply H|by apply Is_true_true]. }
  destruct (list_sort_returns (fun x => Ok (created x)) Z.ltb
              (filter (fun r => is_dated r) rels)) as [dated Hd].
  { by apply Forall_forall. }
  exists dated, versions. repeat split; try done.
  simpl. rewrite Hp. simpl. rewrite Hv, Hd. done.
Qed.


(** The hook, when it fires, is the computed sequence followed by the
    second loop; an exception leaves before the loop starts. *)
Lemma version_ordering_fires sender instance c w :
  default true c = true ->
  version_ordering sender {| kw_instance := Some instance; kw_created := c |} w
  = match computed_sequence (package_releases (package instance) w) with
    | Ok sequence => update_loop (enumerate sequence) w
    | Raise e => (Raise e, w)
    end.
Proof.
  intros Hc. unfold version_ordering, computed_sequence, package_releases.
  simpl. rewrite Hc. unfold Release_objects_filter_package, lift.
  destruct (partition_loop _ [] []) as [[vs ds]|]; simpl; [|done].
  destruct (list_sort version_key _ _); simpl; [|done].
  destruct (list_sort _ Z.ltb _); simpl; done.
Qed.

Lemma update_loop_run l w :
  update_loop l w
  = (Ok tt, {| releases := (fun r => foldl step_row r l) <$> releases w;
               updates := updates w ++ writes_of l |}).
Proof.
  revert w. induction l as [|[i rel] l IH]; intros [rows ups]; simpl.
  - unfold writes_of. simpl. rewrite app_nil_r.
    f_equal. f_equal. induction rows; csimpl; congruence.
  - unfold writes_of, step_row at 2. simpl.
    destruct (decide (order rel <> Z.of_nat i)) as [Hne|He]; simpl.
    + rewrite IH. simpl. f_equal. f_equal.
      * unfold update_rows. rewrite <- list_fmap_compose.
        by apply list_fmap_ext.
      * by rewrite <- app_assoc.
    + by rewrite IH.
Qed.
End Loops.

(** ** Positions *)

Lemma NoDup_pk_inj rows x y :
  NoDup (pk <$> rows) -> x ∈ rows -> y ∈ rows -> pk x = pk y -> x = y.
Proof.
  intros Hnd [i Hi]%list_elem_of_lookup_1 [j Hj]%list_elem_of_lookup_1 E.
  assert (i = j) as ->; [|congruence].
  apply (NoDup_lookup (pk <$> rows) i j (pk x)); [done| |];
    rewrite list_lookup_fmap; [by rewrite Hi|by rewrite Hj, E].
Qed.

Lemma position_of_lookup sequence i r :
  NoDup (pk <$> sequence) -> sequence !! i = Some r ->
  position_of (pk r) sequence = Some i.
Proof.
  revert i. induction sequence as [|x l IH]; intros i Hnd Hi; [done|].
  csimpl in Hnd. apply NoDup_cons in Hnd as [Hx Hnd]. simpl.
  destruct i as [|i]; simpl in Hi.
  - injection Hi as ->. by rewrite decide_True.
  - rewrite decide_False, (IH i); [done..|].
    intros E. apply Hx. rewrite E.
    apply list_elem_of_fmap_2. by eapply list_elem_of_lookup_2.
Qed.

Lemma position_of_None k sequence :
  k ∉ pk <$> sequence -> position_of k sequence = None.
Proof.
  induction sequence as [|x l IH]; csimpl; [done|].
  intros [Hx Hl]%not_elem_of_cons. rewrite decide_False by done.
  by rewrite IH.
Qed.

Lemma foldl_step_row_absent n sequence r :
  pk r ∉ pk <$> sequence ->
  foldl step_row r (enumerate_from n sequence) = r.
Proof.
  revert n. induction sequence as [|x l IH]; intros n; csimpl; [done|].
  intros [Hx Hl]%not_elem_of_cons.
  replace (step_row r (n, x)) with r; [by apply IH|].
  unfold step_row; cbn [fst snd].
  destruct (decide (pk r = pk x)) as [E|]; [|by destruct (decide _)].
  exfalso. apply Hx. by rewrite E.
Qed.

Lemma foldl_step_row_position n sequence r :
  NoDup (pk <$> sequence) ->
  (forall x, x ∈ sequence -> pk x = pk r -> x = r) ->
  foldl step_row r (enumerate_from n sequence)
  = match position_of (pk r) sequence with
    | Some i => set_order r (Z.of_nat (n + i))
    | None => r
    end.
Proof.
  revert n. induction sequence as [|x l IH]; intros n Hnd Hsame; [done|].
  csimpl in Hnd. apply NoDup_cons in Hnd as [Hx Hnd]. simpl.
  destruct (decide (pk x = pk r)) as [E|Hne].
  - assert (x = r) as -> by (apply Hsame; [by constructor|done]).
    rewrite Nat.add_0_r.
    replace (step_row r (n, r)) with (set_order r (Z.of_nat n)).
    + by apply foldl_step_row_absent.
    + unfold step_row; cbn [fst snd].
      destruct (decide (pk r = pk r)); [|done].
      destruct (decide (order r <> Z.of_nat n)) as [|He]; [done|].
      apply dec_stable in He. by rewrite <- He, set_order_id.
  - replace (step_row r (n, x)) with r.
    + rewrite IH; [|done|].
      * destruct (position_of (pk r) l); simpl; [|done].
        by rewrite Nat.add_succ_r.
      * intros y Hy. apply Hsame. by constructor.
    + unfold step_row; cbn [fst snd].
      destruct (decide (pk r = pk x)); [congruence|].
      by destruct (decide _).
Qed.

Lemma dated_versioned_Permutation {V : Verlib} rels :
  Forall (fun r => verlib_returns r = true) rels ->
  filter (fun r => is_dated r) rels ++ filter (fun r => is_versioned r) rels
  ≡ₚ rels.
Proof.
  induction 1 as [|r rels Hr _ IH]; [done|].
  rewrite !filter_cons. rewrite (dated_or_versioned r Hr).
  destruct (is_versioned r); simpl.
  - by rewrite <- Permutation_middle, IH.
  - by rewrite IH.
Qed.

(** ** One run of the hook *)

Section Run.
Context {V : Verlib}.

Lemma package_releases_NoDup p w :
  NoDup (pk <$> releases w) -> NoDup (pk <$> package_releases p w).
Proof.
  intros H. eapply sublist_NoDup; [exact H|].
  apply fmap_sublist, sublist_filter.
Qed.

Lemma computed_sequence_Permutation rels sequence :
  Forall (fun r => verlib_returns r = true) rels ->
  computed_sequence rels = Ok sequence -> sequence ≡ₚ rels.
Proof.
  intros H E.
  destruct (computed_sequence_returns rels H) as (ds & vs & Hd & Hv & _ & E').
  rewrite E' in E. injection E as <-.
  apply list_sort_Permutation in Hd, Hv. rewrite Hd, Hv.
  by apply dated_versioned_Permutation.
Qed.

(** With distinct primary keys the second loop assigns positions. *)
Lemma update_loop_assigns sequence w :
  NoDup (pk <$> releases w) ->
  NoDup (pk <$> sequence) ->
  (forall x, x ∈ sequence -> x ∈ releases w) ->
  update_loop (enumerate sequence) w
  = (Ok tt, {| releases := assign_positions sequence (releases w);
               updates := updates w ++ writes_of (enumerate sequence) |}).
Proof.
  intros Hnd Hseq Hsub. rewrite update_loop_run. f_equal. f_equal.
  unfold assign_positions. apply Forall_fmap_ext, Forall_forall.
  intros r Hr. unfold enumerate.
  rewrite foldl_step_row_position; [done..|].
  intros x Hx E. apply (NoDup_pk_inj (releases w)); auto.
Qed.

Lemma version_ordering_run sender instance c w :
  default true c = true ->
  NoDup (pk <$> releases w) ->
  Forall (fun r => verlib_returns r = true)
         (package_releases (package instance) w) ->
  exists sequence,
    computed_sequence (package_releases (package instance) w) = Ok sequence /\
    sequence ≡ₚ package_releases (package instance) w /\
    version_ordering sender
      {| kw_instance := Some instance; kw_created := c |} w
    = (Ok tt, {| releases := assign_positions sequence (releases w);
                 updates := updates w ++ writes_of (enumerate sequence) |}).
Proof.
  intros Hc Hnd Hret.
  destruct (computed_sequence_returns _ Hret) as (ds & vs & _ & _ & _ & E).
  pose proof (computed_sequence_Permutation _ _ Hret E) as Hperm.
  exists (ds ++ vs). split; [done|]. split; [done|].
  rewrite version_ordering_fires by done. rewrite E.
  apply update_loop_assigns; [done| |].
  - rewrite Hperm. by apply package_releases_NoDup.
  - intros x Hx. rewrite Hperm in Hx.
    by apply list_elem_of_filter in Hx as [_ ?].
Qed.

(** Rows of the package get their position, rows of other packages are
    left alone. *)
Lemma assign_positions_package p w sequence :
  filter (fun r => package r = p) (assign_positions sequence (releases w))
  = assign_positions sequence (package_releases p w).
Proof.
  unfold assign_positions, package_releases.
  apply filter_fmap_same. intros r.
  by destruct (position_of (pk r) sequence).
Qed.

Lemma assign_positions_self sequence :
  NoDup (pk <$> sequence) ->
  order <$> assign_positions sequence sequence
  = seqZ 0 (Z.of_nat (length sequence)).
Proof.
  intros Hnd. apply list_eq. intros i. unfold assign_positions.
  rewrite !list_lookup_fmap.
  destruct (sequence !! i) as [r|] eqn:Hi; simpl.
  - rewrite (position_of_lookup _ i r Hnd Hi). simpl.
    symmetry. rewrite lookup_seqZ. apply lookup_lt_Some in Hi. lia.
  - symmetry. apply lookup_seqZ_ge. apply lookup_ge_None in Hi. lia.
Qed.

Lemma assign_positions_other p w sequence r :
  NoDup (pk <$> releases w) ->
  sequence ≡ₚ package_releases p w ->
  r ∈ releases w -> package r <> p ->
  position_of (pk r) sequence = None.
Proof.
  intros Hnd Hperm Hr Hp. apply position_of_None.
  intros (x & E & Hx)%list_elem_of_fmap. rewrite Hperm in Hx.
  apply list_elem_of_filter in Hx as [Hxp Hx].
  apply Hp. by rewrite (NoDup_pk_inj _ r x Hnd Hr Hx E).
Qed.
End Run.

(** ** A second run, and what a run leaves alone *)

Lemma enumerate_from_lookup {A} n (l : list A) i :
  enumerate_from n l !! i = (fun x => ((n + i)%nat, x)) <$> l !! i.
Proof.
  revert n i. induction l as [|x l IH]; intros n [|i]; simpl; [done..| |].
  - by rewrite Nat.add_0_r.
  - rewrite IH. by rewrite Nat.add_succ_r.
Qed.

Lemma enumerate_from_elem_of {A} n (l : list A) i x :
  (i, x) ∈ enumerate_from n l -> exists j, i = (n + j)%nat /\ l !! j = Some x.
Proof.
  intros [j Hj]%list_elem_of_lookup_1. rewrite enumerate_from_lookup in Hj.
  destruct (l !! j) as [y|] eqn:E; simplify_eq/=. by exists j.
Qed.

Lemma step_row_frame r x : step_row r x = set_order r (order (step_row r x)).
Proof.
  unfold step_row. repeat case_decide; simpl; by rewrite ?set_order_id.
Qed.

Lemma foldl_step_row_frame l r :
  foldl step_row r l = set_order r (order (foldl step_row r l)).
Proof.
  revert r. induction l as [|x l IH]; intros r; simpl.
  - by rewrite set_order_id.
  - rewrite IH at 1. by rewrite (step_row_frame r x) at 1.
Qed.

Lemma writes_of_settled l :
  Forall (fun x => order (snd x) = Z.of_nat (fst x)) l -> writes_of l = [].
Proof.
  induction 1 as [|x l Hx _ IH]; [done|]. unfold writes_of in *. csimpl.
  rewrite decide_False by (intros Hn; by apply Hn). exact IH.
Qed.

Lemma foldl_step_row_settled l r :
  Forall (fun x => order (snd x) = Z.of_nat (fst x)) l -> foldl step_row r l = r.
Proof.
  induction 1 as [|x l Hx _ IH]; [done|]. simpl.
  replace (step_row r x) with r; [done|].
  unfold step_row. by rewrite decide_False by (intros Hn; by apply Hn).
Qed.

Lemma writes_of_elem_of k i l :
  (k, i) ∈ writes_of l ->
  exists n rel, (n, rel) ∈ l /\ k = pk rel /\ i = Z.of_nat n /\ order rel <> i.
Proof.
  unfold writes_of. rewrite list_elem_of_omap. intros ([n rel] & Hin & H).
  simpl in H. case_decide; simplify_eq. by exists n, rel.
Qed.

Section SecondRun.
Context {V : Verlib}.

Lemma verlib_returns_version r r' :
  version r' = version r -> verlib_returns r' = verlib_returns r.
Proof. unfold verlib_returns. by intros ->. Qed.

Lemma computed_sequence_fmap (g : Release -> Release) rels sequence :
  (forall x, version (g x) = version x) ->
  (forall x, created (g x) = created x) ->
  Forall (fun r => verlib_returns r = true) rels ->
  computed_sequence rels = Ok sequence ->
  computed_sequence (g <$> rels) = Ok (g <$> sequence).
Proof.
  intros Hv Hc Hret E.
  destruct (computed_sequence_returns rels Hret) as (ds & vs & Hd & Hvs & _ & E').
  rewrite E' in E. injection E as <-.
  assert (Hret' : Forall (fun r => verlib_returns r = true) (g <$> rels)).
  { apply Forall_fmap. eapply Forall_impl; [exact Hret|]. intros r Hr. simpl.
    by rewrite (verlib_returns_version r (g r)). }
  destruct (computed_sequence_returns _ Hret') as (ds' & vs' & Hd' & Hvs' & _ & ->).
  rewrite filter_fmap_same in Hd', Hvs'.
  - rewrite (list_sort_fmap _ _ g _ _ (fun x => f_equal Ok (Hc x)) Hd) in Hd'.
    rewrite (list_sort_fmap version_key _ g _ vs) in Hvs'; [| |done].
    + injection Hd' as <-. injection Hvs' as <-. by rewrite fmap_app.
    + intros x. unfold version_key. by rewrite Hv.
  - intros x. unfold is_versioned. by rewrite Hv.
  - intros x. unfold is_dated. by rewrite Hv.
Qed.

Lemma partition_loop_Ok rels versions dated x :
  partition_loop rels versions dated = Ok x ->
  Forall (fun r => returns (suggest_normalized_version (version r)) = true) rels.
Proof.
  revert versions dated. induction rels as [|r rels IH]; intros vs ds;
    simpl; [constructor|].
  destruct (suggest_normalized_version (version r)) as [[n|]|] eqn:E;
    [| |done]; intros H; (constructor; [by rewrite E|by eapply IH]).
Qed.

(** When the sequence is computed, verlib has returned on every release
    it was asked about. *)
Lemma computed_sequence_Ok_returns rels sequence :
  computed_sequence rels = Ok sequence ->
  Forall (fun r => verlib_returns r = true) rels.
Proof.
  unfold computed_sequence; simpl.
  destruct (partition_loop rels [] []) as [[vs ds]|] eqn:Hp; [|done].
  pose proof (partition_loop_Ok _ _ _ _ Hp) as Hs.
  rewrite (partition_loop_returns rels [] [] Hs) in Hp. simpl in Hp.
  injection Hp as <- <-. simpl.
  destruct (list_sort version_key nv_lt _) as [vs'|] eqn:Hv; [|done].
  intros _. unfold list_sort in Hv; simpl in Hv.
  destruct (mapM version_key _) as [ks|] eqn:Hk; [|done].
  apply mapM_Forall2, Forall2_Forall_l
    with (Q := fun r => returns (version_key r) = true) in Hk.
  - rewrite Forall_forall in Hs, Hk. apply Forall_forall. intros r Hr.
    specialize (Hs r Hr). specialize (Hk r). revert Hs Hk.
    rewrite list_elem_of_filter.
    unfold verlib_returns, is_versioned, version_key; simpl.
    destruct (suggest_normalized_version _) as [[n|]|]; simpl; [|done..].
    intros _ Hk. by apply Hk.
  - apply Forall_true. intros k r ->. done.
Qed.
End SecondRun.

(* ------------------------------------------------------------------ *)
(** * The release ordering algorithm (specification, section 4.1)       *)
(* ------------------------------------------------------------------ *)

Lemma Sorted_created_le l :
  Sorted (sorted_le (fun x : Release => Ok (created x)) Z.ltb) l ->
  Sorted created_le l.
Proof.
  intros H. rewrite <- (list_fmap_id l).
  eapply Sorted_fmap_elem_of; [|exact H].
  intros a b _ _. unfold sorted_le, created_le. simpl. lia.
Qed.

(** C1.  When the hook fires, the releases of the package are split into
    those whose version normalizes and those for which normalization
    returns None; the first group is sorted ascending by normalized
    version, the second ascending by creation time; and every release gets
    as [order] its 0-based position in dated-then-versioned. *)
Theorem version_ordering_sorts_and_assigns {V : Verlib} sender instance w :
  NoDup (pk <$> releases w) ->
  Forall (fun r => verlib_returns r = true)
         (package_releases (package instance) w) ->
  (forall a b, nv_lt a b = true -> nv_lt b a = false) ->
  exists dated versions w',
    dated ≡ₚ filter (fun r => is_dated r)
                    (package_releases (package instance) w) /\
    versions ≡ₚ filter (fun r => is_versioned r)
                       (package_releases (package instance) w) /\
    Sorted created_le dated /\
    Sorted version_le versions /\
    version_ordering sender (created_kwargs instance) w = (Ok tt, w') /\
    releases w' = assign_positions (dated ++ versions) (releases w) /\
    forall i r, (dated ++ versions) !! i = Some r ->
                set_order r (Z.of_nat i) ∈ releases w'.
Proof.
  intros Hnd Hret Hasym.
  destruct (computed_sequence_returns _ Hret) as (ds & vs & Hd & Hv & _ & E).
  destruct (version_ordering_run sender instance (Some true) w eq_refl Hnd Hret)
    as (sequence & E' & Hperm & Hrun).
  rewrite E in E'. injection E' as <-.
  eexists ds, vs, _. split; [by eapply list_sort_Permutation|].
  split; [by eapply list_sort_Permutation|].
  split. { eapply Sorted_created_le, list_sort_Sorted; [|exact Hd]. lia. }
  split. { eapply list_sort_Sorted; [exact Hasym|exact Hv]. }
  split; [exact Hrun|]. split; [done|]. simpl.
  intros i r Hi.
  assert (r ∈ releases w) as Hr.
  { apply list_elem_of_lookup_2 in Hi. rewrite Hperm in Hi.
    by apply list_elem_of_filter in Hi as [_ ?]. }
  apply list_elem_of_fmap. exists r. split; [|done].
  rewrite (position_of_lookup _ i r); [done| |done].
  rewrite Hperm. by apply package_releases_NoDup.
Qed.

(** C2.  After a run the [order] values of the package's releases are
    exactly 0 .. N-1, each once, N being the number of releases. *)
Theorem order_values_contiguous {V : Verlib} sender instance w :
  NoDup (pk <$> releases w) ->
  Forall (fun r => verlib_returns r = true)
         (package_releases (package instance) w) ->
  exists w',
    version_ordering sender (created_kwargs instance) w = (Ok tt, w') /\
    length (package_releases (package instance) w')
    = length (package_releases (package instance) w) /\
    order <$> package_releases (package instance) w'
    ≡ₚ seqZ 0 (Z.of_nat (length (package_releases (package instance) w))) /\
    NoDup (order <$> package_releases (package instance) w').
Proof.
  intros Hnd Hret.
  destruct (version_ordering_run sender instance (Some true) w eq_refl Hnd Hret)
    as (sequence & _ & Hperm & Hrun).
  eexists. split; [exact Hrun|].
  assert (package_releases (package instance)
            {| releases := assign_positions sequence (releases w);
               updates := updates w ++ writes_of (enumerate sequence) |}
          = assign_positions sequence (package_releases (package instance) w))
    as ->.
  { apply assign_positions_package. }
  assert (order <$> assign_positions sequence
                      (package_releases (package instance) w)
          ≡ₚ seqZ 0 (Z.of_nat (length (package_releases (package instance) w))))
    as Hp.
  { rewrite <- (Permutation_length Hperm). unfold assign_positions.
    rewrite <- Hperm. fold (assign_positions sequence sequence).
    rewrite assign_positions_self; [done|].
    rewrite Hperm. by apply package_releases_NoDup. }
  split; [|split; [exact Hp|]].
  - unfold assign_positions. by rewrite length_fmap.
  - rewrite Hp. apply NoDup_seqZ.
Qed.

(** C3.  After a run every dated release of the package has a smaller
    [order] than every versioned one, whatever their versions and
    timestamps. *)
Theorem dated_before_versioned {V : Verlib} sender instance w rd rv :
  NoDup (pk <$> releases w) ->
  Forall (fun r => verlib_returns r = true)
         (package_releases (package instance) w) ->
  rd ∈ package_releases (package instance)
         (snd (version_ordering sender (created_kwargs instance) w)) ->
  rv ∈ package_releases (package instance)
         (snd (version_ordering sender (created_kwargs instance) w)) ->
  is_dated rd = true -> is_versioned rv = true ->
  fst (version_ordering sender (created_kwargs instance) w) = Ok tt /\
  (order rd < order rv)%Z.
Proof.
  intros Hnd Hret.
  destruct (computed_sequence_returns _ Hret) as (ds & vs & Hd & Hv & _ & E).
  destruct (version_ordering_run sender instance (Some true) w eq_refl Hnd Hret)
    as (sequence & E' & Hperm & Hrun).
  rewrite E in E'. injection E' as <-.
  unfold created_kwargs. rewrite Hrun. simpl.
  unfold package_releases at 1 2. simpl.
  rewrite assign_positions_package.
  unfold assign_positions.
  intros (rd0 & -> & Hrd)%list_elem_of_fmap (rv0 & -> & Hrv)%list_elem_of_fmap.
  assert (NoDup (pk <$> ds ++ vs)) as Hseq.
  { rewrite Hperm. by apply package_releases_NoDup. }
  apply list_sort_Permutation in Hd, Hv.
  assert (forall r, r ∈ vs -> is_versioned r = true) as Hvs.
  { intros r Hr. rewrite Hv in Hr. apply list_elem_of_filter in Hr as [Hr _].
    by apply Is_true_true. }
  assert (forall r, r ∈ ds -> is_dated r = true) as Hds.
  { intros r Hr. rewrite Hd in Hr. apply list_elem_of_filter in Hr as [Hr _].
    by apply Is_true_true. }
  assert (forall r, is_dated r = true -> is_versioned r = true -> False) as Hx.
  { intros r. unfold is_dated, is_versioned.
    by destruct (suggest_normalized_version _) as [[?|]|]. }
  assert (forall r, is_dated (match position_of (pk r) (ds ++ vs) with
                                | Some i => set_order r (Z.of_nat i)
                                | None => r end) = is_dated r) as Hpd.
  { intros r. by destruct (position_of _ _). }
  assert (forall r, is_versioned (match position_of (pk r) (ds ++ vs) with
                                | Some i => set_order r (Z.of_nat i)
                                | None => r end) = is_versioned r) as Hpv.
  { intros r. by destruct (position_of _ _). }
  rewrite (Hpd rd0), (Hpv rv0). intros Hdd Hvv. split; [done|].
  rewrite <- Hperm in Hrd, Hrv.
  apply elem_of_app in Hrd as [Hrd|Hrd]; [|destruct (Hx rd0); auto].
  apply elem_of_app in Hrv as [Hrv|Hrv]; [destruct (Hx rv0); auto|].
  apply list_elem_of_lookup_1 in Hrd as [i Hi], Hrv as [j Hj].
  rewrite (position_of_lookup (ds ++ vs) i rd0 Hseq)
    by (by apply lookup_app_l_Some).
  rewrite (position_of_lookup (ds ++ vs) (length ds + j) rv0 Hseq)
    by (by rewrite lookup_app_r, Nat.add_comm, Nat.add_sub by lia).
  simpl. apply lookup_lt_Some in Hi. lia.
Qed.

Lemma assign_positions_settled sequence :
  NoDup (pk <$> sequence) ->
  Forall (fun x : nat * Release => order (snd x) = Z.of_nat (fst x))
    (enumerate (assign_positions sequence sequence)).
Proof.
  intros Hnd. apply Forall_lookup_2. intros i [j x] Hi.
  unfold enumerate, assign_positions in Hi.
  rewrite enumerate_from_lookup, list_lookup_fmap in Hi.
  destruct (sequence !! i) as [r|] eqn:Hr; [|done].
  simpl in Hi. injection Hi as <- <-.
  by rewrite (position_of_lookup _ i r Hnd Hr).
Qed.

(** C5.  A run changes no column but [order], changes no row of another
    package, and issues no UPDATE for a release whose [order] already is
    its position in the computed sequence. *)
Theorem only_order_is_written {V : Verlib} sender instance w :
  NoDup (pk <$> releases w) ->
  exists new,
    let w' := snd (version_ordering sender (created_kwargs instance) w) in
    Forall2 (fun r r' => r' = set_order r (order r') /\
                         (package r <> package instance -> r' = r))
            (releases w) (releases w') /\
    updates w' = updates w ++ new /\
    forall sequence i r,
      computed_sequence (package_releases (package instance) w) = Ok sequence ->
      sequence !! i = Some r -> order r = Z.of_nat i ->
      pk r ∉ new.*1.
Proof.
  intros Hnd. unfold created_kwargs.
  rewrite version_ordering_fires by done.
  destruct (computed_sequence _) as [sequence|e] eqn:E.
  - pose proof (computed_sequence_Ok_returns _ _ E) as Hret.
    pose proof (computed_sequence_Permutation _ _ Hret E) as Hperm.
    assert (NoDup (pk <$> sequence)) as Hseq.
    { rewrite Hperm. by apply package_releases_NoDup. }
    assert (forall x, x ∈ sequence -> x ∈ releases w) as Hsub.
    { intros x Hx. rewrite Hperm in Hx.
      by apply list_elem_of_filter in Hx as [_ ?]. }
    rewrite update_loop_assigns by done.
    exists (writes_of (enumerate sequence)). cbn [snd releases updates].
    split; [|split; [done|]].
    + unfold assign_positions. apply Forall2_fmap_r, Forall_Forall2_diag.
      apply Forall_forall. intros r Hr. split.
      * destruct (position_of _ _); simpl; [done|by rewrite set_order_id].
      * intros Hpkg.
        by rewrite (assign_positions_other _ w sequence r Hnd Hperm Hr Hpkg).
    + intros sequence' i r [= <-] Hi Ho Hin.
      apply list_elem_of_fmap in Hin as ([k o] & Hk & Hin). simpl in Hk.
      apply writes_of_elem_of in Hin as (n & rel & Hin & -> & -> & Hne).
      apply enumerate_from_elem_of in Hin as (j & -> & Hj). simpl in Hne.
      assert (rel = r) as ->.
      { apply (NoDup_pk_inj (releases w)); eauto using list_elem_of_lookup_2. }
      assert (i = j) as ->.
      { pose proof (position_of_lookup _ _ _ Hseq Hi).
        pose proof (position_of_lookup _ _ _ Hseq Hj). congruence. }
      done.
  - exists []. cbn [snd]. split; [|split; [by rewrite app_nil_r|done]].
    apply Forall_Forall2_diag, Forall_forall. intros r _.
    by rewrite set_order_id.
Qed.

(** C6.  The receiver recomputes only for an inserted row: with
    [created=False], or without an instance, it returns at once and
    touches nothing, so saving an existing Release recomputes no order; a
    [post_save] for a created Release runs the ordering of that release's
    package. *)
Theorem hook_fires_on_creation_only {V : Verlib} sender io c instance w :
  version_ordering sender {| kw_instance := io; kw_created := Some false |} w
  = (Ok tt, w) /\
  version_ordering sender {| kw_instance := None; kw_created := c |} w
  = (Ok tt, w) /\
  post_save_Release instance false w = (Ok tt, w) /\
  post_save_Release instance true w
  = match computed_sequence (package_releases (package instance) w) with
    | Ok sequence => update_loop (enumerate sequence) w
    | Raise e => (Raise e, w)
    end.
Proof.
  split; [by destruct io|]. split; [done|]. split; [done|].
  unfold post_save_Release. by rewrite version_ordering_fires.
Qed.


(** C8.  When the created release is the only release of its package, the
    run leaves it with [order = 0]. *)
Theorem only_release_gets_order_zero {V : Verlib} sender instance w :
  package_releases (package instance) w = [instance] ->
  verlib_returns instance = true ->
  exists w',
    version_ordering sender (created_kwargs instance) w = (Ok tt, w') /\
    package_releases (package instance) w' = [set_order instance 0].
Proof.
  intros Hone Hret. unfold created_kwargs.
  rewrite version_ordering_fires by done. rewrite Hone.
  assert (computed_sequence [instance] = Ok [instance]) as ->.
  { destruct (computed_sequence_returns [instance]) as (ds & vs & Hd & Hv & _ & ->).
    { by constructor. }
    rewrite !filter_cons, !filter_nil in Hd, Hv.
    rewrite (dated_or_versioned _ Hret) in Hd.
    pose proof (verlib_returns_key instance Hret) as Hk.
    destruct (is_versioned instance); simpl in *.
    - rewrite list_sort_singleton in Hv by auto.
      rewrite list_sort_nil in Hd. by simplify_eq.
    - rewrite list_sort_singleton in Hd by done.
      rewrite list_sort_nil in Hv. by simplify_eq. }
  rewrite update_loop_run. eexists. split; [done|].
  unfold package_releases in *. cbn [releases]. rewrite filter_fmap_same.
  - rewrite Hone. csimpl. f_equal. unfold step_row; cbn [fst snd].
    destruct (decide (pk instance = pk instance)); [|done].
    destruct (decide (order instance <> Z.of_nat 0)) as [|Ho]; [done|].
    apply dec_stable in Ho. change 0 with (Z.of_nat 0).
    by rewrite <- Ho, set_order_id.
  - intros r. simpl. unfold step_row. by repeat case_decide.
Qed.

(* ------------------------------------------------------------------ *)
(** * The derived properties of [Package]                               *)
(* ------------------------------------------------------------------ *)

Lemma zip_fmap_self {A B} (f : A -> B) (l : list A) :
  zip (f <$> l) l = (fun x => (f x, x)) <$> l.
Proof. induction l as [|x l IH]; csimpl; [done|]. by rewrite IH. Qed.

Lemma order_by_desc_order_Permutation rels : order_by_desc_order rels ≡ₚ rels.
Proof.
  unfold order_by_desc_order. rewrite sort_decorated_Permutation.
  rewrite snd_zip; [done|]. by rewrite length_fmap.
Qed.

Lemma order_by_desc_order_head rels r l :
  order_by_desc_order rels = r :: l ->
  r ∈ rels /\ forall r', r' ∈ rels -> (order r' <= order r)%Z.
Proof.
  intros E. split.
  { rewrite <- order_by_desc_order_Permutation, E. by constructor. }
  revert E. unfold order_by_desc_order. rewrite zip_fmap_self.
  set (lt := fun a b : Z => Z.ltb b a). intros E r' Hr'.
  assert (Sorted (key_le lt) (sort_decorated lt ((fun x => (order x, x)) <$> rels)))
    as Hs.
  { apply sort_decorated_Sorted. unfold lt. intros a b. lia. }
  apply Sorted.Sorted_StronglySorted in Hs.
  2:{ intros a b c. unfold key_le, lt. lia. }
  assert (Forall (fun p : Z * Release => fst p = order (snd p))
            (sort_decorated lt ((fun x => (order x, x)) <$> rels))) as Hk.
  { rewrite sort_decorated_Permutation. by apply Forall_fmap, Forall_true. }
  assert ((order r', r') ∈ sort_decorated lt ((fun x => (order x, x)) <$> rels))
    as Hin.
  { rewrite sort_decorated_Permutation.
    by apply (list_elem_of_fmap_2 (fun x => (order x, x))). }
  destruct (sort_decorated lt _) as [|[k x] sl]; [done|].
  csimpl in E. injection E as -> _.
  apply Forall_cons in Hk as [Hk _]. simpl in Hk. subst k.
  apply StronglySorted_inv in Hs as [_ Hall].
  apply elem_of_cons in Hin as [[= -> ->]|Hin]; [lia|].
  rewrite Forall_forall in Hall. specialize (Hall _ Hin).
  unfold key_le, lt in Hall. simpl in Hall. lia.
Qed.

(** Once [_latest_release] is set, [latest] answers from it and does not
    look at the database. *)
Lemma latest_cached w self v :
  _latest_release self = Some v -> latest w self = (Ok v, self).
Proof. intros E. unfold latest. rewrite E. simpl. by rewrite E. Qed.

Lemma latest_first_use w self :
  _latest_release self = None ->
  latest w self
  = let v := head (order_by_desc_order
                     (filter (fun r => package r = p_pk self) (releases w))) in
    (Ok v, set_latest_release self v).
Proof.
  intros E. unfold latest. rewrite E.
  by destruct (order_by_desc_order _) as [|r l].
Qed.

(** C9, as the code has it.  On a package object that has not yet
    evaluated [latest], and for a package with at least one release,
    [latest] returns a release of the package of highest [order]; the
    object keeps that release in [_latest_release], and every later
    evaluation on the object returns it, whatever the releases then
    are. *)
Theorem latest_is_highest_order w self :
  _latest_release self = None ->
  has_release w self ->
  returns_highest_order w self /\
  exists r,
    fst (latest w self) = Ok (Some r) /\
    _latest_release (snd (latest w self)) = Some (Some r) /\
    forall w2, latest w2 (snd (latest w self))
               = (Ok (Some r), snd (latest w self)).
Proof.
  intros E (r0 & Hr0 & Hp0).
  assert (returns_highest_order w self) as Hhigh.
  { unfold returns_highest_order.
    rewrite latest_first_use by done. simpl.
    set (rels := filter (fun r => package r = p_pk self) (releases w)).
    assert (r0 ∈ rels) as Hin by (by apply list_elem_of_filter).
    destruct (order_by_desc_order rels) as [|r l] eqn:Hs.
    - rewrite <- order_by_desc_order_Permutation, Hs in Hin.
      by apply elem_of_nil in Hin.
    - apply order_by_desc_order_head in Hs as [Hr Hmax].
      exists r. apply list_elem_of_filter in Hr as [Hp Hr].
      repeat split; [done..|]. intros r' Hr' Hp'.
      apply Hmax. by apply list_elem_of_filter. }
  split; [exact Hhigh|].
  destruct Hhigh as (r & Hl & _). exists r. split; [exact Hl|].
  rewrite (latest_first_use w self E) in Hl |- *. simpl in Hl |- *.
  injection Hl as Hl. rewrite Hl. split; [done|].
  intros w2. by apply latest_cached.
Qed.

(** C10, as the code has it.  For a package with no releases, on a package
    object that holds no release from an earlier evaluation of [latest],
    [latest] is None and [requirement_line] is None. *)
Theorem no_release_no_latest {V : Verlib} w self :
  (forall r, _latest_release self <> Some (Some r)) ->
  ~ has_release w self ->
  fst (latest w self) = Ok None /\
  fst (requirement_line w self) = Ok None.
Proof.
  intros Hc Hno.
  assert (latest w self = (Ok None, set_latest_release self None)
          \/ latest w self = (Ok None, self)) as Hl.
  { destruct (_latest_release self) as [[r|]|] eqn:E.
    - by destruct (Hc r).
    - right. by apply latest_cached.
    - left. rewrite latest_first_use by done.
      destruct (order_by_desc_order _) as [|r l] eqn:Hs; [done|].
      apply order_by_desc_order_head in Hs as [Hr _].
      apply list_elem_of_filter in Hr as [Hp Hr].
      destruct Hno. by exists r. }
  unfold requirement_line, bind, ST_monad.
  destruct Hl as [-> | ->]; done.
Qed.

(* ------------------------------------------------------------------ *)
(** * The theorems on concrete releases                                 *)
(* ------------------------------------------------------------------ *)

Ltac by_computation := apply (bool_decide_unpack _); vm_compute; exact I.

Lemma lex_lt_asym a b : lex_lt a b = true -> lex_lt b a = false.
Proof.
  revert b. induction a as [|x a IH]; intros [|y b]; simpl; try done.
  intros H. apply orb_true_iff in H as [H|H].
  - apply Z.ltb_lt in H. apply orb_false_iff. split; [lia|].
    apply andb_false_iff. left. lia.
  - apply andb_true_iff in H as [H1 H2]. apply Z.eqb_eq in H1. subst y.
    rewrite Z.ltb_irrefl, Z.eqb_refl. simpl. by apply IH.
Qed.

(** Equal keys keep their input order, smaller keys move to the front. *)
Example sort_decorated_is_stable :
  sort_decorated Z.ltb [(1, "a"); (1, "b"); (0, "c"); (1, "d"); (0, "e")]
  = [(0, "c"); (0, "e"); (1, "a"); (1, "b"); (1, "d")].
Proof. reflexivity. Qed.

(** The example of section 8: "2023-01-dev" gets 0, "1.0" gets 1 and
    "2.0" gets 2; the release of the other package keeps its order. *)
Example version_ordering_example :
  let '(res, w') := version_ordering Release_class (created_kwargs r_1_0)
                      demo_world in
  res = Ok tt /\
  (fun r => (version r, order r)) <$> releases w'
  = [("2.0", 2); ("2023-01-dev", 0); ("0.1", 0); ("1.0", 1)] /\
  updates w' = [(3, 1); (2, 2)].
Proof. vm_compute. done. Qed.

Lemma version_ordering_sorts_and_assigns_witness :
  NoDup (pk <$> releases demo_world) /\
  exists dated versions w',
    dated ≡ₚ filter (fun r => is_dated r)
                    (package_releases (package r_1_0) demo_world) /\
    versions ≡ₚ filter (fun r => is_versioned r)
                       (package_releases (package r_1_0) demo_world) /\
    Sorted created_le dated /\
    Sorted version_le versions /\
    version_ordering Release_class (created_kwargs r_1_0) demo_world
    = (Ok tt, w') /\
    releases w' = assign_positions (dated ++ versions) (releases demo_world) /\
    forall i r, (dated ++ versions) !! i = Some r ->
                set_order r (Z.of_nat i) ∈ releases w'.
Proof.
  split; [by_computation|].
  apply (version_ordering_sorts_and_assigns Release_class r_1_0 demo_world).
  - by_computation.
  - by_computation.
  - exact lex_lt_asym.
Defined.

Lemma order_values_contiguous_witness :
  exists w',
    version_ordering Release_class (created_kwargs r_1_0) demo_world
    = (Ok tt, w') /\
    length (package_releases (package r_1_0) w')
    = length (package_releases (package r_1_0) demo_world) /\
    order <$> package_releases (package r_1_0) w'
    ≡ₚ seqZ 0 (Z.of_nat (length (package_releases (package r_1_0) demo_world))) /\
    NoDup (order <$> package_releases (package r_1_0) w').
Proof.
  apply (order_values_contiguous Release_class r_1_0 demo_world);
    by_computation.
Defined.

Lemma dated_before_versioned_witness :
  fst (version_ordering Release_class (created_kwargs r_1_0) demo_world)
  = Ok tt /\
  (order r_dev < order (set_order r_1_0 1))%Z.
Proof.
  apply (dated_before_versioned Release_class r_1_0 demo_world
           r_dev (set_order r_1_0 1)); try by_computation; reflexivity.
Defined.

Lemma only_order_is_written_witness :
  exists new,
    let w' := snd (version_ordering Release_class (created_kwargs r_1_0)
                     demo_world) in
    Forall2 (fun r r' => r' = set_order r (order r') /\
                         (package r <> package r_1_0 -> r' = r))
            (releases demo_world) (releases w') /\
    updates w' = updates demo_world ++ new /\
    forall sequence i r,
      computed_sequence (package_releases (package r_1_0) demo_world)
      = Ok sequence ->
      sequence !! i = Some r -> order r = Z.of_nat i ->
      pk r ∉ new.*1.
Proof.
  apply (only_order_is_written Release_class r_1_0 demo_world).
  by_computation.
Defined.



Lemma only_release_gets_order_zero_witness :
  exists w',
    version_ordering Release_class (created_kwargs r_other) demo_world
    = (Ok tt, w') /\
    package_releases (package r_other) w' = [set_order r_other 0].
Proof.
  apply (only_release_gets_order_zero Release_class r_other demo_world);
    reflexivity.
Defined.

(** C9 as stated fails: an object that evaluated [latest] while "1.0" was
    the only release still answers "1.0" after "2.0" was created and
    ordered above it. *)
Lemma latest_is_stale_after_creation :
  has_release world_after_2_0 pkg7_used /\
  ~ returns_highest_order world_after_2_0 pkg7_used.
Proof.
  split.
  - exists r_1_0. split; [by_computation|reflexivity].
  - intros (r & Hl & _ & _ & Hmax).
    assert (fst (latest world_after_2_0 pkg7_used) = Ok (Some r_1_0)) as E
      by reflexivity.
    rewrite E in Hl. injection Hl as <-.
    specialize (Hmax (set_order r_2_0 1)).
    assert (order (set_order r_2_0 1) <= order r_1_0)%Z as Hle.
    { apply Hmax; [by_computation|reflexivity]. }
    vm_compute in Hle. by apply Hle.
Qed.

Lemma latest_is_highest_order_witness :
  _latest_release pkg7 = None /\
  returns_highest_order world_after_2_0 pkg7 /\
  exists r,
    fst (latest world_after_2_0 pkg7) = Ok (Some r) /\
    _latest_release (snd (latest world_after_2_0 pkg7)) = Some (Some r) /\
    forall w2, latest w2 (snd (latest world_after_2_0 pkg7))
               = (Ok (Some r), snd (latest world_after_2_0 pkg7)).
Proof.
  split; [reflexivity|].
  apply (latest_is_highest_order world_after_2_0 pkg7); [reflexivity|].
  exists r_1_0. split; [by_computation|reflexivity].
Defined.

(** On that table the orders differ, and the fresh object gets "2.0". *)
Example latest_after_2_0 :
  (fun r => (version r, order r)) <$> releases world_after_2_0
  = [("1.0", 0); ("2.0", 1)] /\
  fst (latest world_after_2_0 pkg7) = Ok (Some (set_order r_2_0 1)).
Proof. by vm_compute. Qed.

(** C10 as stated fails: an object that evaluated [latest] while the
    package had a release keeps answering with it, and builds a
    requirement line from it, after the package has lost its releases. *)
Lemma latest_is_stale_after_delete :
  ~ has_release world_after_delete pkg7_used /\
  fst (latest world_after_delete pkg7_used) = Ok (Some r_1_0) /\
  fst (requirement_line world_after_delete pkg7_used)
  = Ok (Some "pkg>=1.0,<1.1").
Proof.
  split; [|split; reflexivity].
  intros (r & Hr & Hp).
  apply list_elem_of_singleton in Hr as ->. discriminate Hp.
Qed.

Lemma no_release_no_latest_witness :
  ~ has_release world_after_delete pkg7 /\
  fst (latest world_after_delete pkg7) = Ok None /\
  fst (requirement_line world_after_delete pkg7) = Ok None.
Proof.
  assert (~ has_release world_after_delete pkg7) as Hno.
  { intros (r & Hr & Hp).
    apply list_elem_of_singleton in Hr as ->. discriminate Hp. }
  split; [exact Hno|].
  apply (no_release_no_latest world_after_delete pkg7); [|exact Hno].
  intros r. discriminate.
Defined.

(* ------------------------------------------------------------------ *)
(** * More on the ordering hook                                         *)
(* ------------------------------------------------------------------ *)

(** ** Relative positions *)

Lemma before_cons {A} (a b x : A) l : before a b l -> before a b (x :: l).
Proof. intros (l1 & l2 & l3 & ->). by exists (x :: l1), l2, l3. Qed.

Lemma before_head {A} (a b : A) l : b ∈ l -> before a b (a :: l).
Proof. intros (l2 & l3 & ->)%list_elem_of_split. by exists [], l2, l3. Qed.

Lemma before_inv_cons {A} (a b x : A) l :
  before a b (x :: l) -> (a = x /\ b ∈ l) \/ before a b l.
Proof.
  intros ([|y l1] & l2 & l3 & E); simplify_eq/=.
  - left. split; [done|]. rewrite elem_of_app. right. by constructor.
  - right. by exists l1, l2, l3.
Qed.

Lemma before_nil {A} (a b : A) : ~ before a b [].
Proof. by intros ([|y l1] & l2 & l3 & E). Qed.

Lemma before_lookup {A} (a b : A) l :
  before a b l ->
  exists i j, (i < j)%nat /\ l !! i = Some a /\ l !! j = Some b.
Proof.
  intros (l1 & l2 & l3 & ->).
  exists (length l1), (length l1 + S (length l2))%nat.
  split; [lia|]. split; [by apply list_lookup_middle|].
  rewrite lookup_app_r by lia.
  replace (length l1 + S (length l2) - length l1)%nat with (S (length l2))
    by lia.
  simpl. by apply list_lookup_middle.
Qed.

Lemma before_fmap {A B} (f : A -> B) a b l :
  before a b l -> before (f a) (f b) (f <$> l).
Proof.
  intros (l1 & l2 & l3 & ->). exists (f <$> l1), (f <$> l2), (f <$> l3).
  by rewrite fmap_app, fmap_cons, fmap_app, fmap_cons.
Qed.

Lemma before_filter {A} (P : A -> Prop) `{!forall x, Decision (P x)} a b l :
  P a -> P b -> before a b l -> before a b (filter P l).
Proof.
  intros Ha Hb (l1 & l2 & l3 & ->).
  exists (filter P l1), (filter P l2), (filter P l3).
  rewrite filter_app, filter_cons_True by done.
  by rewrite filter_app, filter_cons_True by done.
Qed.

Lemma before_app_r {A} (a b : A) l0 l : before a b l -> before a b (l0 ++ l).
Proof.
  intros (l1 & l2 & l3 & ->). exists (l0 ++ l1), l2, l3.
  by rewrite <- app_assoc.
Qed.

Lemma before_app_l {A} (a b : A) l0 l : before a b l -> before a b (l ++ l0).
Proof.
  intros (l1 & l2 & l3 & ->). exists l1, l2, (l3 ++ l0).
  by rewrite <- !app_assoc, <- !app_comm_cons, <- app_assoc.
Qed.

Section Stability.
Context {K A : Type} (lt : K -> K -> bool).

Lemma insert_stable_before_old (x a b : K * A) l :
  before a b l -> before a b (insert_stable lt x l).
Proof.
  induction l as [|y l IH]; intros H; [by apply before_nil in H|]. simpl.
  destruct (lt (fst y) (fst x)); [|by apply before_cons].
  apply before_inv_cons in H as [[-> Hb]|H].
  - apply before_head. rewrite insert_stable_Permutation. by constructor.
  - by apply before_cons, IH.
Qed.

Lemma insert_stable_before_new (x b : K * A) l :
  b ∈ l -> lt (fst b) (fst x) = false -> before x b (insert_stable lt x l).
Proof.
  induction l as [|y l IH]; intros Hb Hlt; [by apply elem_of_nil in Hb|].
  simpl. destruct (lt (fst y) (fst x)) eqn:E; [|by apply before_head].
  apply elem_of_cons in Hb as [->|Hb]; [congruence|].
  by apply before_cons, IH.
Qed.

(** An element stays in front of a later one unless the later one is
    strictly smaller. *)
Lemma sort_decorated_stable (a b : K * A) l :
  before a b l -> lt (fst b) (fst a) = false ->
  before a b (sort_decorated lt l).
Proof.
  induction l as [|x l IH]; intros H Hlt; [by apply before_nil in H|]. simpl.
  apply before_inv_cons in H as [[-> Hb]|H].
  - apply insert_stable_before_new; [|done].
    by rewrite sort_decorated_Permutation.
  - by apply insert_stable_before_old, IH.
Qed.

Lemma zip_keys (key : A -> result K) (d : K) l ks :
  Forall2 (fun x k => key x = Ok k) l ks ->
  zip ks l
  = (fun x => (match key x with Ok k => k | Raise _ => d end, x)) <$> l.
Proof. induction 1 as [|x k l ks Hx _ IH]; csimpl; [done|]. by rewrite Hx, IH. Qed.

Lemma list_sort_stable (key : A -> result K) l l' a b ka kb :
  list_sort key lt l = Ok l' ->
  before a b l -> key a = Ok ka -> key b = Ok kb -> lt kb ka = false ->
  before a b l'.
Proof.
  unfold list_sort; simpl. destruct (mapM key l) as [ks|] eqn:E; [|done].
  intros [= <-] H Ha Hb Hlt. apply mapM_Forall2 in E.
  rewrite (zip_keys key ka l ks E).
  apply (before_fmap (fun x => (match key x with Ok k => k | Raise _ => ka end, x)))
    in H.
  rewrite Ha, Hb in H.
  apply (sort_decorated_stable _ _ _ H) in Hlt.
  by apply (before_fmap snd) in Hlt.
Qed.
End Stability.

Lemma StronglySorted_lookup_lt {A} (R : A -> A -> Prop) l i j x y :
  StronglySorted R l -> l !! i = Some x -> l !! j = Some y -> (i < j)%nat ->
  R x y.
Proof.
  intros Hs. revert i j. induction Hs as [|z l Hs IH Hall]; intros i j Hi Hj Hij;
    [done|].
  destruct j as [|j]; [lia|]. destruct i as [|i]; simpl in *.
  - injection Hi as ->. rewrite Forall_forall in Hall. apply Hall.
    by eapply list_elem_of_lookup_2.
  - apply (IH i j); [done..|lia].
Qed.

(** ** The rows after a run *)

Section Rows.
Context {V : Verlib}.

Lemma version_ordering_rows sender instance w :
  NoDup (pk <$> releases w) ->
  Forall (fun r => verlib_returns r = true)
         (package_releases (package instance) w) ->
  exists dated versions,
    list_sort (fun x => Ok (created x)) Z.ltb
      (filter (fun r => is_dated r) (package_releases (package instance) w))
    = Ok dated /\
    list_sort version_key nv_lt
      (filter (fun r => is_versioned r) (package_releases (package instance) w))
    = Ok versions /\
    NoDup (pk <$> dated ++ versions) /\
    dated ++ versions ≡ₚ package_releases (package instance) w /\
    version_ordering sender (created_kwargs instance) w
    = (Ok tt,
       {| releases := assign_positions (dated ++ versions) (releases w);
          updates := updates w ++ writes_of (enumerate (dated ++ versions)) |}).
Proof.
  intros Hnd Hret.
  destruct (computed_sequence_returns _ Hret) as (ds & vs & Hd & Hv & _ & E).
  destruct (version_ordering_run sender instance (Some true) w eq_refl Hnd Hret)
    as (sequence & E' & Hperm & Hrun).
  rewrite E in E'. injection E' as <-.
  exists ds, vs. repeat split; try done.
  rewrite Hperm. by apply package_releases_NoDup.
Qed.

Lemma assign_positions_lookup sequence rows i r :
  NoDup (pk <$> sequence) -> sequence !! i = Some r -> r ∈ rows ->
  set_order r (Z.of_nat i) ∈ assign_positions sequence rows.
Proof.
  intros Hnd Hi Hr. apply list_elem_of_fmap. exists r. split; [|done].
  by rewrite (position_of_lookup _ i r Hnd Hi).
Qed.

Lemma assign_positions_elem_of sequence rows r' :
  NoDup (pk <$> sequence) -> sequence ≡ₚ rows ->
  r' ∈ assign_positions sequence rows ->
  exists i r, sequence !! i = Some r /\ r' = set_order r (Z.of_nat i).
Proof.
  intros Hnd Hperm (r & -> & Hr)%list_elem_of_fmap.
  rewrite <- Hperm in Hr. apply list_elem_of_lookup_1 in Hr as [i Hi].
  exists i, r. split; [done|]. by rewrite (position_of_lookup _ i r Hnd Hi).
Qed.

Lemma package_releases_elem_of p w r :
  r ∈ package_releases p w <-> r ∈ releases w /\ package r = p.
Proof. unfold package_releases. rewrite list_elem_of_filter. tauto. Qed.
End Rows.

Lemma before_elem_of {A} (a b : A) l : before a b l -> a ∈ l /\ b ∈ l.
Proof.
  intros (l1 & l2 & l3 & ->). split.
  - apply elem_of_app. right. by constructor.
  - apply elem_of_app. right. constructor. apply elem_of_app. right.
    by constructor.
Qed.

Lemma version_key_versioned {V : Verlib} r k :
  version_key r = Ok k -> is_versioned r = true.
Proof.
  unfold version_key, is_versioned; simpl.
  by destruct (suggest_normalized_version _) as [[?|]|].
Qed.

Lemma list_sort_strict {K A} (key : A -> result K) (lt : K -> K -> bool)
    l l' a b ka kb :
  (forall x y, lt x y = true -> lt y x = false) ->
  (forall x y z, lt y x = false -> lt z y = false -> lt z x = false) ->
  list_sort key lt l = Ok l' ->
  a ∈ l -> b ∈ l -> key a = Ok ka -> key b = Ok kb -> lt ka kb = true ->
  exists i j, (i < j)%nat /\ l' !! i = Some a /\ l' !! j = Some b.
Proof.
  intros Hasym Htrans Hs Ha Hb Hka Hkb Hlt.
  pose proof (list_sort_Permutation _ _ _ _ Hs) as Hperm.
  apply list_sort_Sorted in Hs; [|done].
  apply Sorted.Sorted_StronglySorted in Hs.
  2:{ intros x y z. unfold sorted_le.
      destruct (key x), (key y), (key z); try done. apply Htrans. }
  rewrite <- Hperm in Ha, Hb.
  apply list_elem_of_lookup_1 in Ha as [i Hi], Hb as [j Hj].
  exists i, j. split; [|done].
  destruct (Nat.lt_trichotomy i j) as [?|[->|Hji]]; [done| |].
  - assert (ka = kb) as -> by congruence. by rewrite (Hasym _ _ Hlt) in Hlt.
  - pose proof (StronglySorted_lookup_lt _ _ _ _ _ _ Hs Hj Hi Hji) as Hle.
    unfold sorted_le in Hle. rewrite Hka, Hkb in Hle. congruence.
Qed.

Lemma writes_of_sublist n sequence :
  (writes_of (enumerate_from n sequence)).*1 `sublist_of` pk <$> sequence.
Proof.
  revert n. induction sequence as [|x l IH]; intros n; [done|].
  unfold writes_of in *. csimpl. case_decide; csimpl.
  - by apply sublist_skip.
  - by apply sublist_cons.
Qed.

(** X1.  When the comparison of normalized versions is asymmetric and its
    complement transitive, two releases of the same group keep the order
    in which the query returned them unless the later one is strictly
    smaller: equal versions, and equal creation times, are not swapped. *)
Theorem equal_keys_keep_table_order {V : Verlib} sender instance w a b :
  NoDup (pk <$> releases w) ->
  Forall (fun r => verlib_returns r = true)
         (package_releases (package instance) w) ->
  (forall x y, nv_lt x y = true -> nv_lt y x = false) ->
  (forall x y z, nv_lt y x = false -> nv_lt z y = false -> nv_lt z x = false) ->
  before a b (releases w) ->
  package a = package instance -> package b = package instance ->
  (is_dated a = true /\ is_dated b = true /\ (created a <= created b)%Z) \/
  (exists ka kb, version_key a = Ok ka /\ version_key b = Ok kb /\
                 nv_lt kb ka = false) ->
  exists w' i j,
    version_ordering sender (created_kwargs instance) w = (Ok tt, w') /\
    (i < j)%nat /\
    set_order a (Z.of_nat i) ∈ releases w' /\
    set_order b (Z.of_nat j) ∈ releases w'.
Proof.
  intros Hnd Hret _ _ Hab Hpa Hpb Hkeys.
  destruct (version_ordering_rows sender instance w Hnd Hret)
    as (ds & vs & Hd & Hv & Hseq & Hperm & Hrun).
  destruct (before_elem_of _ _ _ Hab) as [Ha Hb].
  assert (before a b (package_releases (package instance) w)) as Hab'.
  { by apply before_filter. }
  assert (before a b (ds ++ vs)) as Hseqab.
  { destruct Hkeys as [(Hda & Hdb & Hc)|(ka & kb & Hka & Hkb & Hlt)].
    - apply before_app_l.
      apply (list_sort_stable Z.ltb (fun x => Ok (created x)) _ _ a b
               (created a) (created b) Hd); [|done|done|lia].
      apply before_filter; [by apply Is_true_true..|done].
    - apply before_app_r.
      apply (list_sort_stable nv_lt version_key _ _ a b ka kb Hv);
        [|done..].
      apply before_filter; [|  |done];
        apply Is_true_true; by eapply version_key_versioned. }
  apply before_lookup in Hseqab as (i & j & Hij & Hi & Hj).
  eexists _, i, j. split; [exact Hrun|]. split; [done|]. simpl.
  split; by apply assign_positions_lookup.
Qed.

(** X2.  Among the dated releases of the package, one created strictly
    earlier gets a strictly smaller [order], wherever the two stand in
    the table. *)
Theorem dated_in_creation_order {V : Verlib} sender instance w a b :
  NoDup (pk <$> releases w) ->
  Forall (fun r => verlib_returns r = true)
         (package_releases (package instance) w) ->
  a ∈ package_releases (package instance) w ->
  b ∈ package_releases (package instance) w ->
  is_dated a = true -> is_dated b = true ->
  (created a < created b)%Z ->
  exists w' i j,
    version_ordering sender (created_kwargs instance) w = (Ok tt, w') /\
    (i < j)%nat /\
    set_order a (Z.of_nat i) ∈ releases w' /\
    set_order b (Z.of_nat j) ∈ releases w'.
Proof.
  intros Hnd Hret Ha Hb Hda Hdb Hc.
  destruct (version_ordering_rows sender instance w Hnd Hret)
    as (ds & vs & Hd & Hv & Hseq & Hperm & Hrun).
  assert (forall x y, Z.ltb x y = true -> Z.ltb y x = false) as Hasym
    by (intros x y; lia).
  assert (forall x y z, Z.ltb y x = false -> Z.ltb z y = false ->
                        Z.ltb z x = false) as Htrans
    by (intros x y z; lia).
  destruct (list_sort_strict _ _ _ _ a b (created a) (created b)
              Hasym Htrans Hd)
    as (i & j & Hij & Hi & Hj); [| |done|done|lia|].
  1,2: apply list_elem_of_filter; split; [by apply Is_true_true|done].
  eexists _, i, j. split; [exact Hrun|]. split; [done|]. simpl.
  apply package_releases_elem_of in Ha as [Ha _], Hb as [Hb _].
  split; apply assign_positions_lookup; try done; by apply lookup_app_l_Some.
Qed.

(** X3.  Among the versioned releases of the package, one with a strictly
    smaller normalized version gets a strictly smaller [order], when the
    comparison of normalized versions is asymmetric and its complement
    transitive. *)
Theorem versioned_in_version_order {V : Verlib} sender instance w a b ka kb :
  NoDup (pk <$> releases w) ->
  Forall (fun r => verlib_returns r = true)
         (package_releases (package instance) w) ->
  (forall x y, nv_lt x y = true -> nv_lt y x = false) ->
  (forall x y z, nv_lt y x = false -> nv_lt z y = false -> nv_lt z x = false) ->
  a ∈ package_releases (package instance) w ->
  b ∈ package_releases (package instance) w ->
  version_key a = Ok ka -> version_key b = Ok kb ->
  nv_lt ka kb = true ->
  exists w' i j,
    version_ordering sender (created_kwargs instance) w = (Ok tt, w') /\
    (i < j)%nat /\
    set_order a (Z.of_nat i) ∈ releases w' /\
    set_order b (Z.of_nat j) ∈ releases w'.
Proof.
  intros Hnd Hret Hasym Htrans Ha Hb Hka Hkb Hlt.
  destruct (version_ordering_rows sender instance w Hnd Hret)
    as (ds & vs & Hd & Hv & Hseq & Hperm & Hrun).
  destruct (list_sort_strict version_key nv_lt _ _ a b ka kb Hasym Htrans Hv)
    as (i & j & Hij & Hi & Hj); try done.
  1,2: apply list_elem_of_filter; split; [|done];
       apply Is_true_true; by eapply version_key_versioned.
  eexists _, (length ds + i)%nat, (length ds + j)%nat.
  split; [exact Hrun|]. split; [lia|]. simpl.
  apply package_releases_elem_of in Ha as [Ha _], Hb as [Hb _].
  split; apply assign_positions_lookup; try done;
    by rewrite lookup_app_r, Nat.add_comm, Nat.add_sub by lia.
Qed.

(** X4.  A run issues at most one UPDATE per release of the package and
    none for any other row; every value written is a position below the
    number of releases and differs from the order the release had. *)
Theorem writes_are_few_and_local {V : Verlib} sender instance w :
  NoDup (pk <$> releases w) ->
  exists new,
    updates (snd (version_ordering sender (created_kwargs instance) w))
    = updates w ++ new /\
    NoDup new.*1 /\
    (length new <= length (package_releases (package instance) w))%nat /\
    forall k i, (k, i) ∈ new ->
      exists r, r ∈ package_releases (package instance) w /\ pk r = k /\
                order r <> i /\
                (0 <= i < Z.of_nat (length (package_releases (package instance) w)))%Z.
Proof.
  intros Hnd. unfold created_kwargs. rewrite version_ordering_fires by done.
  destruct (computed_sequence _) as [sequence|e] eqn:E.
  2:{ exists []. simpl. rewrite app_nil_r. repeat split; [constructor|lia|].
      intros k i Hin. by apply elem_of_nil in Hin. }
  pose proof (computed_sequence_Ok_returns _ _ E) as Hret.
  pose proof (computed_sequence_Permutation _ _ Hret E) as Hperm.
  rewrite update_loop_run. exists (writes_of (enumerate sequence)).
  cbn [snd updates]. split; [done|].
  pose proof (writes_of_sublist 0 sequence) as Hsub. fold (enumerate sequence) in Hsub.
  split; [|split].
  - eapply sublist_NoDup; [|exact Hsub].
    rewrite Hperm. by apply package_releases_NoDup.
  - apply sublist_length in Hsub.
    rewrite !length_fmap in Hsub. by rewrite <- (Permutation_length Hperm).
  - intros k i Hin.
    apply writes_of_elem_of in Hin as (n & rel & Hin & -> & -> & Hne).
    apply enumerate_from_elem_of in Hin as (j & -> & Hj).
    exists rel. split; [|split; [done|split; [done|]]].
    + rewrite <- Hperm. by eapply list_elem_of_lookup_2.
    + apply lookup_lt_Some in Hj. rewrite <- (Permutation_length Hperm). lia.
Qed.

(** X5.  A run that ends with an exception has written nothing: the
    table and the log of UPDATE statements are as before. *)
Theorem exception_leaves_database_untouched {V : Verlib} sender kwargs w e :
  fst (version_ordering sender kwargs w) = Raise e ->
  snd (version_ordering sender kwargs w) = w.
Proof.
  destruct kwargs as [[instance|] c]; [|done].
  destruct (default true c) eqn:Hc.
  - rewrite version_ordering_fires by done.
    destruct (computed_sequence _); [|done]. by rewrite update_loop_run.
  - unfold version_ordering. simpl. by rewrite Hc.
Qed.

(* ------------------------------------------------------------------ *)
(** * [latest] after a run, and its memoization                         *)
(* ------------------------------------------------------------------ *)

Lemma is_versioned_set_order {V : Verlib} r i :
  is_versioned (set_order r i) = is_versioned r.
Proof. done. Qed.

Lemma version_key_set_order {V : Verlib} r i :
  version_key (set_order r i) = version_key r.
Proof. done. Qed.

(** A fresh object of the package, after a run, gets from [latest] the
    last release of the computed sequence. *)
Lemma latest_after_run_last {V : Verlib} sender instance w self :
  NoDup (pk <$> releases w) ->
  Forall (fun r => verlib_returns r = true)
         (package_releases (package instance) w) ->
  p_pk self = package instance ->
  _latest_release self = None ->
  package_releases (package instance) w <> [] ->
  exists w' dated versions r0,
    list_sort version_key nv_lt
      (filter (fun r => is_versioned r) (package_releases (package instance) w))
    = Ok versions /\
    length (dated ++ versions)
    = length (package_releases (package instance) w) /\
    version_ordering sender (created_kwargs instance) w = (Ok tt, w') /\
    (dated ++ versions) !! (length (dated ++ versions) - 1)%nat = Some r0 /\
    fst (latest w' self)
    = Ok (Some (set_order r0 (Z.of_nat (length (dated ++ versions) - 1)))).
Proof.
  intros Hnd Hret Hp Hfresh Hne.
  destruct (version_ordering_rows sender instance w Hnd Hret)
    as (ds & vs & Hd & Hv & Hseq & Hperm & Hrun).
  set (N := length (ds ++ vs)).
  assert (0 < N)%nat as HN.
  { unfold N. rewrite (Permutation_length Hperm).
    destruct (package_releases _ _); [done|simpl; lia]. }
  destruct (lookup_lt_is_Some_2 (ds ++ vs) (N - 1)) as [r0 Hlast]; [lia|].
  eexists _, ds, vs, r0. split; [exact Hv|].
  split; [by rewrite (Permutation_length Hperm)|].
  split; [exact Hrun|]. split; [exact Hlast|].
  rewrite latest_first_use by done. cbn [fst releases]. rewrite Hp.
  rewrite assign_positions_package.
  set (rels' := assign_positions (ds ++ vs)
                  (package_releases (package instance) w)).
  assert (set_order r0 (Z.of_nat (N - 1)) ∈ rels') as Hin.
  { apply assign_positions_lookup; [done..|].
    rewrite <- Hperm. by eapply list_elem_of_lookup_2. }
  destruct (order_by_desc_order rels') as [|r l] eqn:Hs.
  { rewrite <- order_by_desc_order_Permutation, Hs in Hin.
    by apply elem_of_nil in Hin. }
  apply order_by_desc_order_head in Hs as [Hr Hmax]. simpl.
  apply assign_positions_elem_of in Hr as (i & r1 & Hi & ->); [|done..].
  specialize (Hmax _ Hin). simpl in Hmax.
  pose proof (lookup_lt_Some _ _ _ Hi) as Hlt. fold N in Hlt.
  assert (i = (N - 1)%nat) as -> by lia.
  rewrite Hlast in Hi. by injection Hi as ->.
Qed.

(** X6.  After a run, [latest] on a fresh object of the package returns
    the release whose [order] is N-1, N being the number of releases, and
    that release is a versioned one whenever the package has any. *)
Theorem latest_after_run {V : Verlib} sender instance w self :
  NoDup (pk <$> releases w) ->
  Forall (fun r => verlib_returns r = true)
         (package_releases (package instance) w) ->
  p_pk self = package instance ->
  _latest_release self = None ->
  package_releases (package instance) w <> [] ->
  exists w' r,
    version_ordering sender (created_kwargs instance) w = (Ok tt, w') /\
    fst (latest w' self) = Ok (Some r) /\
    order r = (Z.of_nat (length (package_releases (package instance) w)) - 1)%Z /\
    ((exists rv, rv ∈ package_releases (package instance) w /\
                 is_versioned rv = true) ->
     is_versioned r = true).
Proof.
  intros Hnd Hret Hp Hfresh Hne.
  destruct (latest_after_run_last sender instance w self Hnd Hret Hp Hfresh Hne)
    as (w' & ds & vs & r0 & Hv & Hlen & Hrun & Hlast & Hl).
  eexists w', _. split; [exact Hrun|]. split; [exact Hl|].
  assert (length (package_releases (package instance) w) <> 0)%nat as HN.
  { by destruct (package_releases _ _). }
  split; [simpl; lia|].
  intros (rv & Hrv & Hver). rewrite is_versioned_set_order.
  apply list_sort_Permutation in Hv.
  assert (rv ∈ vs) as Hin.
  { rewrite Hv. apply list_elem_of_filter. split; [by apply Is_true_true|done]. }
  assert (length vs <> 0)%nat as Hvs.
  { destruct vs; [by apply elem_of_nil in Hin|done]. }
  rewrite length_app in *.
  rewrite lookup_app_r in Hlast by lia.
  apply list_elem_of_lookup_2 in Hlast. rewrite Hv in Hlast.
  apply list_elem_of_filter in Hlast as [Hlast _]. by apply Is_true_true.
Qed.

(** X7.  After a run, when the package has a versioned release and the
    comparison of normalized versions is asymmetric with a transitive
    complement, [latest] returns a release that no release of the package
    exceeds in normalized version. *)
Theorem latest_is_newest_version {V : Verlib} sender instance w self rv k :
  NoDup (pk <$> releases w) ->
  Forall (fun r => verlib_returns r = true)
         (package_releases (package instance) w) ->
  (forall x y, nv_lt x y = true -> nv_lt y x = false) ->
  (forall x y z, nv_lt y x = false -> nv_lt z y = false -> nv_lt z x = false) ->
  p_pk self = package instance ->
  _latest_release self = None ->
  rv ∈ package_releases (package instance) w ->
  version_key rv = Ok k ->
  exists w' r kr,
    version_ordering sender (created_kwargs instance) w = (Ok tt, w') /\
    fst (latest w' self) = Ok (Some r) /\
    version_key r = Ok kr /\
    nv_lt kr k = false.
Proof.
  intros Hnd Hret Hasym Htrans Hp Hfresh Hrv Hk.
  assert (package_releases (package instance) w <> []) as Hne.
  { intros E. rewrite E in Hrv. by apply elem_of_nil in Hrv. }
  destruct (latest_after_run_last sender instance w self Hnd Hret Hp Hfresh Hne)
    as (w' & ds & vs & r0 & Hv & Hlen & Hrun & Hlast & Hl).
  pose proof (list_sort_Permutation _ _ _ _ Hv) as Hperm.
  assert (rv ∈ vs) as Hin.
  { rewrite Hperm. apply list_elem_of_filter.
    split; [|done]. apply Is_true_true. by eapply version_key_versioned. }
  assert (length vs <> 0)%nat as Hvs.
  { destruct vs; [by apply elem_of_nil in Hin|done]. }
  rewrite length_app in Hlast. rewrite lookup_app_r in Hlast by lia.
  apply list_sort_Sorted in Hv; [|done].
  apply Sorted.Sorted_StronglySorted in Hv.
  2:{ intros x y z. unfold sorted_le.
      destruct (version_key x), (version_key y), (version_key z); try done.
      apply Htrans. }
  apply list_elem_of_lookup_1 in Hin as [j Hj].
  pose proof (lookup_lt_Some _ _ _ Hj) as Hjlt.
  destruct (decide (j = length ds + length vs - 1 - length ds)%nat) as [->|Hjne].
  - rewrite Hj in Hlast. injection Hlast as <-.
    eexists w', _, k. split; [exact Hrun|]. split; [exact Hl|].
    split; [by rewrite version_key_set_order|].
    destruct (nv_lt k k) eqn:E; [|done]. by rewrite (Hasym _ _ E) in E.
  - assert (j < length ds + length vs - 1 - length ds)%nat as Hlt by lia.
    pose proof (StronglySorted_lookup_lt _ _ _ _ _ _ Hv Hj Hlast Hlt) as Hle.
    unfold sorted_le in Hle. rewrite Hk in Hle.
    destruct (version_key r0) as [kr|] eqn:Hkr; [|done].
    eexists w', _, kr. split; [exact Hrun|]. split; [exact Hl|].
    by rewrite version_key_set_order.
Qed.

(** The first evaluation stores its answer in [_latest_release]. *)
Lemma latest_sets_cache w self :
  exists v, latest w self = (Ok v, snd (latest w self)) /\
            _latest_release (snd (latest w self)) = Some v.
Proof.
  destruct (_latest_release self) as [v|] eqn:E.
  - exists v. by rewrite (latest_cached w self v E).
  - rewrite (latest_first_use w self E). simpl. by eexists.
Qed.

(** X8.  [latest] is memoized on the object: evaluating it again, against
    any state of the database, returns what the first evaluation returned
    and leaves the object as the first evaluation left it. *)
Theorem latest_is_memoized w1 w2 self :
  latest w2 (snd (latest w1 self)) = latest w1 self.
Proof.
  destruct (latest_sets_cache w1 self) as (v & E & Hc).
  rewrite (latest_cached w2 _ v Hc). by rewrite E at 2.
Qed.

(** X9.  Whatever [requirement_line] returns or raises, it leaves the
    object as one evaluation of [latest] leaves it: a later [latest] on
    that object, against any state of the database, returns what [latest]
    returned when [requirement_line] was called. *)
Theorem requirement_line_leaves_latest_cached {V : Verlib} w self :
  snd (requirement_line w self) = snd (latest w self) /\
  forall w2, latest w2 (snd (requirement_line w self)) = latest w self.
Proof.
  destruct (latest_sets_cache w self) as (v & E & Hc).
  pose proof (latest_cached w _ v Hc) as Hm.
  assert (snd (requirement_line w self) = snd (latest w self)) as Hsnd.
  { set (self' := snd (latest w self)) in *.
    unfold requirement_line, bind, ST_monad, lift, get, ret.
    rewrite E. destruct v as [r|]; [|done].
    rewrite Hm. cbn [getattr_version].
    destruct (suggest_normalized_version (version r)) as [[n|]|]; [| |done].
    - destruct (NormalizedVersion n) as [nv|]; [|done].
      destruct (getitem (split "." (nv_str nv)) 0); [|done].
      destruct (getitem (split "." (nv_str nv)) 1); [|done].
      destruct (py_int _); [|done].
      by rewrite Hm.
    - by rewrite Hm. }
  split; [exact Hsnd|]. intros w2. rewrite Hsnd.
  rewrite (latest_cached w2 _ v Hc). by rewrite E at 2.
Qed.

(* ------------------------------------------------------------------ *)
(** * Download totals                                                   *)
(* ------------------------------------------------------------------ *)

Lemma aggregate_Sum_default l :
  match aggregate_Sum l with None => 0 | Some t => t end = sumZ l.
Proof. by destruct l. Qed.

Lemma sumZ_app l1 l2 : sumZ (l1 ++ l2) = (sumZ l1 + sumZ l2)%Z.
Proof. induction l1 as [|x l1 IH]; simpl; [done|]. rewrite IH. lia. Qed.

Lemma sumZ_nonneg l : Forall (fun x => 0 <= x)%Z l -> (0 <= sumZ l)%Z.
Proof. induction 1; simpl; lia. Qed.

Lemma sumZ_elem_of_le l x :
  Forall (fun x => 0 <= x)%Z l -> x ∈ l -> (x <= sumZ l)%Z.
Proof.
  induction 1 as [|y l Hy Hl IH]; intros Hx; [by apply elem_of_nil in Hx|].
  pose proof (sumZ_nonneg l Hl). simpl.
  apply elem_of_cons in Hx as [->|Hx]; [lia|]. specialize (IH Hx). lia.
Qed.

Lemma joined_files_nil p files w :
  releases w = [] ->
  ReleaseFile_objects_filter_release_package p files w = [].
Proof.
  intros E. unfold ReleaseFile_objects_filter_release_package. rewrite E.
  induction files as [|f files IH]; [done|].
  by rewrite fmap_cons, concat_cons, IH, filter_nil.
Qed.

Lemma joined_files_cons p files r rows ups :
  sumZ (downloads <$> ReleaseFile_objects_filter_release_package p files
                        {| releases := r :: rows; updates := ups |})
  = ((if decide (package r = p)
      then sumZ (downloads <$> ReleaseFile_objects_filter_release (pk r) files)
      else 0)
     + sumZ (downloads <$> ReleaseFile_objects_filter_release_package p files
                             {| releases := rows; updates := ups |}))%Z.
Proof.
  unfold ReleaseFile_objects_filter_release_package,
    ReleaseFile_objects_filter_release. cbn [releases].
  induction files as [|f files IH]; [by case_decide|].
  rewrite !fmap_cons, !concat_cons, !fmap_app, !sumZ_app, IH.
  rewrite !filter_cons.
  destruct (decide (package r = p)) as [Hp|Hp];
    destruct (decide (release f = pk r)) as [Hf|Hf];
    destruct (decide (pk r = release f /\ package r = p)) as [[? ?]|Hn];
    csimpl; try lia; try congruence.
Qed.

Lemma joined_files_sum p files w :
  sumZ (downloads <$> ReleaseFile_objects_filter_release_package p files w)
  = sumZ ((fun r => sumZ (downloads <$>
                            ReleaseFile_objects_filter_release (pk r) files))
          <$> package_releases p w).
Proof.
  unfold package_releases. destruct w as [rows ups]. cbn [releases].
  induction rows as [|r rows IH].
  - by rewrite joined_files_nil.
  - rewrite joined_files_cons, IH, filter_cons. by case_decide.
Qed.

Lemma Release_downloads_sum files r :
  Release_downloads files r
  = sumZ (downloads <$> ReleaseFile_objects_filter_release (pk r) files).
Proof. unfold Release_downloads. apply aggregate_Sum_default. Qed.

Lemma Package_downloads_sum files w self :
  Package_downloads files w self
  = sumZ ((fun r => sumZ (downloads <$>
                            ReleaseFile_objects_filter_release (pk r) files))
          <$> package_releases (p_pk self) w).
Proof.
  unfold Package_downloads. rewrite aggregate_Sum_default.
  apply joined_files_sum.
Qed.

(** X10.  The downloads of a package are the downloads of its releases
    added up: the join on the foreign keys and the per-release filter
    count the same files. *)
Theorem package_downloads_is_sum_over_releases files w self :
  Package_downloads files w self
  = sumZ (Release_downloads files <$> package_releases (p_pk self) w).
Proof.
  rewrite Package_downloads_sum. f_equal. apply list_fmap_ext.
  intros i r _. by rewrite Release_downloads_sum.
Qed.

(** X11.  With counters that are not negative, as a PositiveIntegerField
    holds them, the totals are not negative, the total of a release never
    exceeds that of its package, and a package none of whose releases has
    a file has 0 downloads. *)
Theorem downloads_bounds files w self :
  Forall (fun f => 0 <= downloads f)%Z files ->
  (0 <= Package_downloads files w self)%Z /\
  (forall r, r ∈ package_releases (p_pk self) w ->
     (0 <= Release_downloads files r <= Package_downloads files w self)%Z) /\
  ((forall f r, f ∈ files -> r ∈ package_releases (p_pk self) w ->
                release f <> pk r) ->
   Package_downloads files w self = 0).
Proof.
  intros Hpos.
  set (total := fun r => sumZ (downloads <$>
                  ReleaseFile_objects_filter_release (pk r) files)).
  assert (forall r, 0 <= total r)%Z as Hr.
  { intros r. apply sumZ_nonneg, Forall_fmap.
    unfold ReleaseFile_objects_filter_release.
    apply Forall_forall. intros f [_ Hf]%list_elem_of_filter. simpl.
    rewrite Forall_forall in Hpos. by apply Hpos. }
  assert (Forall (fun x => 0 <= x)%Z
            (total <$> package_releases (p_pk self) w)) as Hall.
  { apply Forall_fmap, Forall_forall. intros r _. apply Hr. }
  rewrite Package_downloads_sum. fold total.
  split; [by apply sumZ_nonneg|]. split.
  - intros r Hin. rewrite Release_downloads_sum. fold (total r).
    split; [apply Hr|].
    apply sumZ_elem_of_le; [done|]. by apply list_elem_of_fmap_2.
  - intros Hno.
    assert (Forall (fun x => x = 0)
              (total <$> package_releases (p_pk self) w)) as Hz.
    { apply Forall_fmap, Forall_forall. intros r Hin. simpl. unfold total.
      replace (ReleaseFile_objects_filter_release (pk r) files)
        with (@nil ReleaseFile); [done|].
      symmetry. apply elem_of_nil_inv.
      intros f [Hf Hin']%list_elem_of_filter. by apply (Hno f r). }
    clear -Hz. induction Hz as [|x l -> _ IH]; simpl; [done|]. by rewrite IH.
Qed.

(** What a run does to the table is a map over the rows that keeps every
    column but [order]. *)
Lemma version_ordering_maps_rows {V : Verlib} sender kwargs w :
  exists g : Release -> Release,
    (forall r, g r = set_order r (order (g r))) /\
    releases (snd (version_ordering sender kwargs w)) = g <$> releases w.
Proof.
  assert (exists g : Release -> Release,
            (forall r, g r = set_order r (order (g r))) /\
            releases w = g <$> releases w) as Hid.
  { exists id. split; [intros r; by rewrite set_order_id|by rewrite list_fmap_id]. }
  destruct kwargs as [[instance|] c]; [|done].
  destruct (default true c) eqn:Hc.
  - rewrite version_ordering_fires by done.
    destruct (computed_sequence _) as [sequence|]; [|done].
    rewrite update_loop_run. cbn [snd releases].
    eexists. split; [|done]. intros r. apply foldl_step_row_frame.
  - unfold version_ordering. simpl. by rewrite Hc.
Qed.

(** X12.  The hook never changes a download total: whatever the run does,
    the downloads of every package and of every release are as before. *)
Theorem version_ordering_keeps_downloads {V : Verlib}
    sender kwargs files w self :
  Package_downloads files (snd (version_ordering sender kwargs w)) self
  = Package_downloads files w self /\
  Release_downloads files
    <$> releases (snd (version_ordering sender kwargs w))
  = Release_downloads files <$> releases w.
Proof.
  destruct (version_ordering_maps_rows sender kwargs w) as (g & Hg & E).
  assert (forall r, pk (g r) = pk r) as Hpk by (intros r; by rewrite Hg).
  assert (forall r, package (g r) = package r) as Hpkg
    by (intros r; by rewrite Hg).
  split.
  - rewrite !Package_downloads_sum. unfold package_releases. rewrite E.
    rewrite filter_fmap_same by (intros r; by rewrite Hpkg).
    rewrite <- list_fmap_compose. f_equal. apply list_fmap_ext.
    intros i r _. simpl. by rewrite Hpk.
  - rewrite E, <- list_fmap_compose. apply list_fmap_ext.
    intros i r _. simpl. by rewrite !Release_downloads_sum, Hpk.
Qed.

(* ------------------------------------------------------------------ *)
(** * Requirement lines and display strings                             *)
(* ------------------------------------------------------------------ *)

Lemma has_char_app P s1 s2 :
  has_char P (s1 +:+ s2) = has_char P s1 || has_char P s2.
Proof.
  induction s1 as [|c s1 IH]; simpl; [done|]. by rewrite IH, orb_assoc.
Qed.

Lemma has_char_rev_app P s1 s2 :
  has_char P (String.rev_app s1 s2) = has_char P s1 || has_char P s2.
Proof.
  revert s2. induction s1 as [|c s1 IH]; intros s2; simpl; [done|].
  rewrite IH. simpl. by rewrite orb_assoc, (orb_comm (has_char P s1)).
Qed.

Lemma has_char_rev P s : has_char P (String.rev s) = has_char P s.
Proof. unfold String.rev. rewrite has_char_rev_app. apply orb_false_r. Qed.

Lemma int_rejects_space c : is_space c = true -> int_rejects c = false.
Proof.
  intros H. unfold int_rejects. rewrite H. simpl.
  by rewrite andb_false_r.
Qed.

Lemma has_char_lstrip s :
  has_char int_rejects s = true -> has_char int_rejects (lstrip s) = true.
Proof.
  induction s as [|c s IH]; simpl; [done|].
  destruct (is_space c) eqn:E; [|done].
  by rewrite (int_rejects_space c E).
Qed.

Lemma has_char_strip s :
  has_char int_rejects s = true -> has_char int_rejects (strip s) = true.
Proof.
  intros H. unfold strip. rewrite has_char_rev. apply has_char_lstrip.
  rewrite has_char_rev. by apply has_char_lstrip.
Qed.

Lemma digits_value_rejects acc s :
  has_char int_rejects s = true -> digits_value acc s = None.
Proof.
  revert acc. induction s as [|c s IH]; intros acc; simpl; [done|].
  destruct (is_digit c) eqn:E; [|done].
  unfold int_rejects at 1. rewrite E. simpl. apply IH.
Qed.

Lemma unsigned_value_rejects s :
  has_char int_rejects s = true -> unsigned_value s = Raise ValueError.
Proof.
  intros H. unfold unsigned_value. rewrite (digits_value_rejects 0 s H).
  by destruct s.
Qed.

(** [int] raises ValueError on a string with a character that is neither
    a digit, nor white space, nor a sign. *)
Lemma py_int_rejects s :
  has_char int_rejects s = true -> py_int s = Raise ValueError.
Proof.
  intros H%has_char_strip. unfold py_int.
  destruct (strip s) as [|c t]; [done|].
  pose proof (unsigned_value_rejects (String c t) H) as Hall.
  destruct (Ascii.eqb_spec c "-") as [->|Hm].
  { simpl in H. by rewrite (unsigned_value_rejects t H). }
  destruct (Ascii.eqb_spec c "+") as [->|Hp].
  { simpl in H. by rewrite (unsigned_value_rejects t H). }
  destruct c as [[] [] [] [] [] [] [] []]; try done.
Qed.

Lemma split_nonempty sep s : split sep s <> [].
Proof.
  destruct s as [|c s]; simpl; [done|].
  destruct (Ascii.eqb c sep); [done|]. by destruct (split sep s).
Qed.

Lemma split_no_sep sep s :
  has_char (fun c => Ascii.eqb c sep) s = false -> split sep s = [s].
Proof.
  induction s as [|c s IH]; simpl; [done|].
  destruct (Ascii.eqb c sep); [done|]. simpl. intros H. by rewrite (IH H).
Qed.

Lemma split_app_sep sep d n :
  split sep (d +:+ String sep n) = split sep d ++ split sep n.
Proof.
  induction d as [|c d IH]; simpl.
  - by rewrite Ascii.eqb_refl.
  - destruct (Ascii.eqb c sep); [by rewrite IH|]. rewrite IH.
    pose proof (split_nonempty sep d). by destruct (split sep d).
Qed.

Section RequirementLines.
Context {V : Verlib}.

(** X13.  The requirement line of a package is the requirement line of
    its latest release, exceptions included, when the release's package
    row carries the name the object has. *)
Theorem package_requirement_line_is_that_of_latest packages w self r p :
  fst (latest w self) = Ok (Some r) ->
  Release_package packages r = Ok p ->
  name p = name self ->
  fst (requirement_line w self)
  = match Release_requirement_line packages r with
    | Ok line => Ok (Some line)
    | Raise e => Raise e
    end.
Proof.
  intros Hl Hp Hname.
  destruct (latest_sets_cache w self) as (v & E & Hc).
  pose proof (latest_cached w _ v Hc) as Hm.
  assert (name (snd (latest w self)) = name self) as Hn.
  { destruct (_latest_release self) as [v'|] eqn:E'.
    - by rewrite (latest_cached w self v' E').
    - by rewrite (latest_first_use w self E'). }
  set (self' := snd (latest w self)) in *.
  rewrite E in Hl. simpl in Hl. injection Hl as ->.
  unfold requirement_line, Release_requirement_line, bind, ST_monad,
    result_monad, lift, get, ret.
  rewrite E, Hm. cbn [getattr_version].
  destruct (suggest_normalized_version (version r)) as [[n|]|]; [| |done].
  - destruct (NormalizedVersion n) as [nv|]; [|done].
    destruct (getitem (split "." (nv_str nv)) 0); [|done].
    destruct (getitem (split "." (nv_str nv)) 1); [|done].
    destruct (py_int _); [|done].
    rewrite Hm, Hp. cbn [getattr_version fst]. by rewrite Hn, Hname.
  - rewrite Hm, Hp. cbn [getattr_version fst]. by rewrite Hn, Hname.
Qed.

(** X14.  [Release.requirement_line] raises ValueError when the second
    dot-separated part of the printed normalized version is not a number,
    for instance when it carries a pre-release tag. *)
Theorem requirement_line_rejects_tagged_minor packages self n nv major minor_s rest :
  suggest_normalized_version (version self) = Ok (Some n) ->
  NormalizedVersion n = Ok nv ->
  split "." (nv_str nv) = major :: minor_s :: rest ->
  has_char int_rejects minor_s = true ->
  Release_requirement_line packages self = Raise ValueError.
Proof.
  intros Hs Hn Hsplit Hbad.
  unfold Release_requirement_line, bind, result_monad, getitem.
  rewrite Hs, Hn, Hsplit. simpl. by rewrite (py_int_rejects _ Hbad).
Qed.

(** X15.  [Release.requirement_line] raises IndexError when the printed
    normalized version has no dot. *)
Theorem requirement_line_needs_a_minor packages self n nv :
  suggest_normalized_version (version self) = Ok (Some n) ->
  NormalizedVersion n = Ok nv ->
  has_char (fun c => Ascii.eqb c ".") (nv_str nv) = false ->
  Release_requirement_line packages self = Raise IndexError.
Proof.
  intros Hs Hn Hdot.
  unfold Release_requirement_line, bind, result_monad, getitem.
  by rewrite Hs, Hn, (split_no_sep _ _ Hdot).
Qed.
End RequirementLines.

(** X16.  [ReleaseFile.__unicode__] shows the name under which the file
    is stored without its directories: for a stored name [d/n] where [n]
    has no slash it is [n], and a stored name without a slash is shown
    whole. *)
Theorem release_file_unicode_is_file_name self d n :
  has_char (fun c => Ascii.eqb c "/") n = false ->
  (file self = d +:+ String "/" n -> ReleaseFile_unicode self = n) /\
  (file self = n -> ReleaseFile_unicode self = n).
Proof.
  intros Hn. unfold ReleaseFile_unicode, basename. split; intros ->.
  - rewrite split_app_sep, (split_no_sep _ _ Hn). by rewrite last_snoc.
  - by rewrite (split_no_sep _ _ Hn).
Qed.

(* ------------------------------------------------------------------ *)
(** * Creating a release newer than all others                         *)
(* ------------------------------------------------------------------ *)

Lemma mapM_snoc {A B} (f : A -> result B) l ys x y :
  mapM f l = Ok ys -> f x = Ok y -> mapM f (l ++ [x]) = Ok (ys ++ [y]).
Proof.
  revert ys. induction l as [|a l IH]; intros ys H Hx; simpl in *.
  - injection H as <-. by rewrite Hx.
  - destruct (f a); [|done]. destruct (mapM f l) as [ys'|]; [|done].
    injection H as <-. by rewrite (IH ys' eq_refl Hx).
Qed.

Lemma zip_snoc {A B} (ks : list A) (l : list B) k x :
  length ks = length l -> zip (ks ++ [k]) (l ++ [x]) = zip ks l ++ [(k, x)].
Proof.
  revert l. induction ks as [|a ks IH]; intros [|b l] Hlen; simplify_eq/=;
    [done|]. by rewrite IH.
Qed.

Lemma enumerate_from_app {A} n (l1 l2 : list A) :
  enumerate_from n (l1 ++ l2)
  = enumerate_from n l1 ++ enumerate_from (n + length l1) l2.
Proof.
  revert n. induction l1 as [|x l1 IH]; intros n; simpl.
  - by rewrite Nat.add_0_r.
  - by rewrite IH, Nat.add_succ_r.
Qed.

Section Snoc.
Context {K A : Type} (lt : K -> K -> bool).

Lemma insert_stable_snoc (x m : K * A) l :
  lt (fst m) (fst x) = false ->
  insert_stable lt x (l ++ [m]) = insert_stable lt x l ++ [m].
Proof.
  intros Hm. induction l as [|y l IH]; simpl; [by rewrite Hm|].
  destruct (lt (fst y) (fst x)); [by rewrite IH|done].
Qed.

Lemma sort_decorated_snoc (m : K * A) l :
  (forall a b, lt a b = true -> lt b a = false) ->
  Forall (fun x => lt (fst x) (fst m) = true) l ->
  sort_decorated lt (l ++ [m]) = sort_decorated lt l ++ [m].
Proof.
  intros Hasym. induction 1 as [|x l Hx _ IH]; simpl; [done|].
  rewrite IH. apply insert_stable_snoc. by apply Hasym.
Qed.

(** An element greater than all others, added at the end, is sorted to
    the end and the rest is sorted as without it. *)
Lemma list_sort_snoc_max (key : A -> result K) l l' m km :
  (forall a b, lt a b = true -> lt b a = false) ->
  list_sort key lt l = Ok l' ->
  key m = Ok km ->
  (forall x k, x ∈ l -> key x = Ok k -> lt k km = true) ->
  list_sort key lt (l ++ [m]) = Ok (l' ++ [m]).
Proof.
  intros Hasym Hs Hm Hmax. unfold list_sort in *; simpl in *.
  destruct (mapM key l) as [ks|] eqn:E; [|done]. injection Hs as <-.
  rewrite (mapM_snoc key l ks m km E Hm). f_equal.
  apply mapM_Forall2 in E. rewrite zip_snoc by (symmetry; by eapply Forall2_length).
  rewrite sort_decorated_snoc; [by rewrite fmap_app|done|].
  clear -E Hmax. induction E as [|x k l ks Hx _ IH]; csimpl; constructor.
  - simpl. apply (Hmax x); [by constructor|done].
  - apply IH. intros y ky Hy. apply Hmax. by constructor.
Qed.
End Snoc.

Lemma version_key_returns {V : Verlib} r k :
  version_key r = Ok k -> verlib_returns r = true.
Proof.
  unfold version_key, verlib_returns; simpl.
  destruct (suggest_normalized_version _) as [[n|]|]; [|done..].
  by intros ->.
Qed.

Lemma version_key_not_dated {V : Verlib} r k :
  version_key r = Ok k -> is_dated r = false.
Proof.
  unfold version_key, is_dated; simpl.
  by destruct (suggest_normalized_version _) as [[n|]|].
Qed.

(* ------------------------------------------------------------------ *)
(** * The further theorems on concrete rows                             *)
(* ------------------------------------------------------------------ *)

Lemma lex_lt_complement_trans x y z :
  lex_lt y x = false -> lex_lt z y = false -> lex_lt z x = false.
Proof.
  revert y z. induction x as [|a x IH]; intros [|b y] [|c z]; simpl;
    try done.
  intros H1 H2.
  apply orb_false_iff in H1 as [H1 H1'], H2 as [H2 H2'].
  apply Z.ltb_ge in H1, H2. apply orb_false_iff. split; [lia|].
  destruct (Z.eqb_spec c a) as [->|]; [|done]. simpl.
  assert (b = a) as -> by lia.
  rewrite Z.eqb_refl in H1', H2'. simpl in *. by eapply IH.
Qed.

Lemma equal_keys_keep_table_order_witness :
  before r_dev r_beta (releases dated_world) /\
  exists w' i j,
    version_ordering Release_class (created_kwargs r_1_0) dated_world
    = (Ok tt, w') /\
    (i < j)%nat /\
    set_order r_dev (Z.of_nat i) ∈ releases w' /\
    set_order r_beta (Z.of_nat j) ∈ releases w'.
Proof.
  assert (before r_dev r_beta (releases dated_world)) as Hb.
  { by exists [], [], [r_1_0; r_alpha]. }
  split; [exact Hb|].
  apply (equal_keys_keep_table_order Release_class r_1_0 dated_world
           r_dev r_beta); [by_computation|by_computation|exact lex_lt_asym
                          |exact lex_lt_complement_trans|exact Hb
                          |reflexivity|reflexivity|].
  left. repeat split; [reflexivity..|]. vm_compute. discriminate.
Defined.

Lemma dated_in_creation_order_witness :
  exists w' i j,
    version_ordering Release_class (created_kwargs r_1_0) dated_world
    = (Ok tt, w') /\
    (i < j)%nat /\
    set_order r_alpha (Z.of_nat i) ∈ releases w' /\
    set_order r_dev (Z.of_nat j) ∈ releases w'.
Proof.
  apply (dated_in_creation_order Release_class r_1_0 dated_world
           r_alpha r_dev); try by_computation; reflexivity.
Defined.

Lemma versioned_in_version_order_witness :
  exists w' i j,
    version_ordering Release_class (created_kwargs r_1_0) demo_world
    = (Ok tt, w') /\
    (i < j)%nat /\
    set_order r_1_0 (Z.of_nat i) ∈ releases w' /\
    set_order r_2_0 (Z.of_nat j) ∈ releases w'.
Proof.
  apply (versioned_in_version_order (V := dotted_verlib) Release_class r_1_0
           demo_world r_1_0 r_2_0
           ([1; 0] : @NormalizedVersionT dotted_verlib)
           ([2; 0] : @NormalizedVersionT dotted_verlib));
    [by_computation|by_computation|exact lex_lt_asym
    |exact lex_lt_complement_trans|by_computation|by_computation
    |reflexivity..].
Defined.

Lemma writes_are_few_and_local_witness :
  exists new,
    updates (snd (version_ordering Release_class (created_kwargs r_1_0)
                    demo_world))
    = updates demo_world ++ new /\
    NoDup new.*1 /\
    (length new <= length (package_releases (package r_1_0) demo_world))%nat /\
    forall k i, (k, i) ∈ new ->
      exists r, r ∈ package_releases (package r_1_0) demo_world /\
                pk r = k /\ order r <> i /\
                (0 <= i < Z.of_nat (length (package_releases (package r_1_0)
                                              demo_world)))%Z.
Proof.
  apply (writes_are_few_and_local Release_class r_1_0 demo_world).
  by_computation.
Defined.

Lemma exception_leaves_database_untouched_witness :
  snd (version_ordering (V := raising_verlib) Release_class
         (created_kwargs r_1_0) demo_world) = demo_world.
Proof.
  apply (exception_leaves_database_untouched (V := raising_verlib)
           Release_class (created_kwargs r_1_0) demo_world
           IrrationalVersionError).
  reflexivity.
Defined.

Lemma latest_after_run_witness :
  exists w' r,
    version_ordering Release_class (created_kwargs r_1_0) demo_world
    = (Ok tt, w') /\
    fst (latest w' pkg7) = Ok (Some r) /\
    order r
    = (Z.of_nat (length (package_releases (package r_1_0) demo_world)) - 1)%Z /\
    ((exists rv, rv ∈ package_releases (package r_1_0) demo_world /\
                 is_versioned rv = true) ->
     is_versioned r = true).
Proof.
  apply (latest_after_run Release_class r_1_0 demo_world pkg7);
    [by_computation|by_computation|reflexivity|reflexivity|discriminate].
Defined.

Lemma latest_is_newest_version_witness :
  exists w' r kr,
    version_ordering Release_class (created_kwargs r_1_0) demo_world
    = (Ok tt, w') /\
    fst (latest w' pkg7) = Ok (Some r) /\
    version_key r = Ok kr /\
    nv_lt kr ([1; 0] : @NormalizedVersionT dotted_verlib) = false.
Proof.
  apply (latest_is_newest_version (V := dotted_verlib) Release_class r_1_0
           demo_world pkg7 r_1_0
           ([1; 0] : @NormalizedVersionT dotted_verlib));
    [by_computation|by_computation|exact lex_lt_asym
    |exact lex_lt_complement_trans|reflexivity|reflexivity
    |by_computation|reflexivity].
Defined.

Lemma downloads_bounds_witness :
  (0 <= Package_downloads demo_files demo_world pkg7)%Z /\
  (forall r, r ∈ package_releases (p_pk pkg7) demo_world ->
     (0 <= Release_downloads demo_files r
      <= Package_downloads demo_files demo_world pkg7)%Z) /\
  ((forall f r, f ∈ demo_files ->
                r ∈ package_releases (p_pk pkg7) demo_world ->
                release f <> pk r) ->
   Package_downloads demo_files demo_world pkg7 = 0).
Proof.
  apply (downloads_bounds demo_files demo_world pkg7). by_computation.
Defined.

(** The totals of the example: 22 for package 7, of which 15 for "1.0". *)
Example downloads_example :
  Package_downloads demo_files demo_world pkg7 = 22 /\
  Release_downloads demo_files r_1_0 = 15 /\
  Release_downloads demo_files r_dev = 0.
Proof. by vm_compute. Qed.

Lemma package_requirement_line_is_that_of_latest_witness :
  fst (requirement_line demo_world pkg7)
  = match Release_requirement_line demo_packages r_2_0 with
    | Ok line => Ok (Some line)
    | Raise e => Raise e
    end.
Proof.
  apply (package_requirement_line_is_that_of_latest demo_packages demo_world
           pkg7 r_2_0 {| p_pk := 7; name := "pkg"; _latest_release := None |});
    reflexivity.
Defined.

Lemma requirement_line_rejects_tagged_minor_witness :
  Release_requirement_line (V := verbatim_verlib) demo_packages r_1_0a1
  = Raise ValueError.
Proof.
  apply (requirement_line_rejects_tagged_minor (V := verbatim_verlib)
           demo_packages r_1_0a1 "1.0a1"
           ("1.0a1" : @NormalizedVersionT verbatim_verlib) "1" "0a1" []);
    reflexivity.
Defined.

Lemma requirement_line_needs_a_minor_witness :
  Release_requirement_line demo_packages r_7 = Raise IndexError.
Proof.
  apply (requirement_line_needs_a_minor (V := dotted_verlib) demo_packages
           r_7 "7" ([7] : @NormalizedVersionT dotted_verlib));
    reflexivity.
Defined.

Lemma release_file_unicode_is_file_name_witness :
  (file (new_file 1 3 "packages/pkg-1.0.tar.gz" "source" 10)
   = "packages" +:+ String "/" "pkg-1.0.tar.gz" ->
   ReleaseFile_unicode (new_file 1 3 "packages/pkg-1.0.tar.gz" "source" 10)
   = "pkg-1.0.tar.gz") /\
  (file (new_file 1 3 "packages/pkg-1.0.tar.gz" "source" 10)
   = "pkg-1.0.tar.gz" ->
   ReleaseFile_unicode (new_file 1 3 "packages/pkg-1.0.tar.gz" "source" 10)
   = "pkg-1.0.tar.gz").
Proof.
  apply (release_file_unicode_is_file_name
           (new_file 1 3 "packages/pkg-1.0.tar.gz" "source" 10)
           "packages" "pkg-1.0.tar.gz").
  reflexivity.
Defined.


(* ------------------------------------------------------------------ *)
(** * A second run, on rows that a query may return in another order    *)
(* ------------------------------------------------------------------ *)

(** Without ties, and for a comparison that is asymmetric with a
    transitive complement, the sorted list does not depend on the order
    of the input. *)
Lemma list_sort_reread {K A} (key : A -> result K) (lt : K -> K -> bool)
    l1 l2 s1 :
  (forall x y, lt x y = true -> lt y x = false) ->
  (forall x y z, lt y x = false -> lt z y = false -> lt z x = false) ->
  list_sort key lt l1 = Ok s1 ->
  l2 ≡ₚ l1 ->
  (forall a b ka kb, a ∈ l1 -> b ∈ l1 -> key a = Ok ka -> key b = Ok kb ->
                     lt ka kb = false -> lt kb ka = false -> a = b) ->
  list_sort key lt l2 = Ok s1.
Proof.
  intros Hasym Htrans Hs1 Hperm Hties.
  assert (Forall (fun x => returns (key x) = true) l1) as Hret.
  { unfold list_sort in Hs1; simpl in Hs1.
    destruct (mapM key l1) as [ks|] eqn:E; [|done].
    apply mapM_Forall2 in E. eapply Forall2_Forall_l; [exact E|].
    apply Forall_true. by intros k x ->. }
  rewrite <- Hperm in Hret.
  destruct (list_sort_returns key lt l2 Hret) as [s2 Hs2]. rewrite Hs2.
  f_equal.
  pose proof (list_sort_Permutation _ _ _ _ Hs1) as Hp1.
  pose proof (list_sort_Permutation _ _ _ _ Hs2) as Hp2.
  assert (Transitive (sorted_le key lt)) as Htr.
  { intros x y z. unfold sorted_le.
    destruct (key x), (key y), (key z); try done. apply Htrans. }
  apply (Sorted_unique_strong (sorted_le key lt)).
  - intros x1 x2 Hx1 Hx2. unfold sorted_le.
    destruct (key x1) as [k1|] eqn:E1; [|done].
    destruct (key x2) as [k2|] eqn:E2; [|done].
    intros H12 H21. apply (Hties x1 x2 k1 k2); try done.
    + by rewrite <- Hperm, <- Hp2.
    + by rewrite <- Hp1.
  - by eapply list_sort_Sorted.
  - by eapply list_sort_Sorted.
  - by rewrite Hp2, Hperm, Hp1.
Qed.

Section Reread.
Context {V : Verlib}.

(** The computed sequence of rows read again: the same when they come in
    the same order, and also in any other order when no keys are tied. *)
Lemma computed_sequence_reread rels rels2 ds vs :
  Forall (fun r => verlib_returns r = true) rels ->
  list_sort (fun x => Ok (created x)) Z.ltb
    (filter (fun r => is_dated r) rels) = Ok ds ->
  list_sort version_key nv_lt
    (filter (fun r => is_versioned r) rels) = Ok vs ->
  rels2 ≡ₚ rels ->
  rels2 = rels \/
  ((forall x y, nv_lt x y = true -> nv_lt y x = false) /\
   (forall x y z, nv_lt y x = false -> nv_lt z y = false ->
                  nv_lt z x = false) /\
   no_tied_keys rels) ->
  computed_sequence rels2 = Ok (ds ++ vs).
Proof.
  intros Hret Hd Hv Hperm Hcase.
  assert (Forall (fun r => verlib_returns r = true) rels2) as Hret2
    by (by rewrite Hperm).
  destruct (computed_sequence_returns _ Hret2)
    as (ds2 & vs2 & Hd2 & Hv2 & _ & ->).
  destruct Hcase as [->|(Hasym & Htrans & Hdt & Hvt)].
  { rewrite Hd in Hd2. rewrite Hv in Hv2. by simplify_eq. }
  assert (forall x y, Z.ltb x y = true -> Z.ltb y x = false) as HasymZ
    by (intros x y; lia).
  assert (forall x y z, Z.ltb y x = false -> Z.ltb z y = false ->
                        Z.ltb z x = false) as HtransZ
    by (intros x y z; lia).
  rewrite (list_sort_reread _ _ _ _ ds HasymZ HtransZ Hd) in Hd2.
  - rewrite (list_sort_reread _ _ _ _ vs Hasym Htrans Hv) in Hv2.
    + by simplify_eq.
    + by rewrite Hperm.
    + intros a b ka kb [_ Ha]%list_elem_of_filter [_ Hb]%list_elem_of_filter.
      by apply Hvt.
  - by rewrite Hperm.
  - intros a b ka kb [Hda Ha]%list_elem_of_filter [Hdb Hb]%list_elem_of_filter.
    intros [= <-] [= <-] H1 H2.
    apply Hdt; [done|done|by apply Is_true_true..|lia].
Qed.
End Reread.

Section SecondRead.
Context {V : Verlib}.

Lemma no_tied_keys_fmap (g : Release -> Release) rels :
  (forall x, version (g x) = version x) ->
  (forall x, created (g x) = created x) ->
  no_tied_keys rels -> no_tied_keys (g <$> rels).
Proof.
  intros Hv Hc [Hd Hk]. split.
  - intros a' b' (a & -> & Ha)%list_elem_of_fmap (b & -> & Hb)%list_elem_of_fmap.
    unfold is_dated. rewrite !Hv, !Hc. intros Hda Hdb E.
    by rewrite (Hd a b).
  - intros a' b' ka kb (a & -> & Ha)%list_elem_of_fmap
      (b & -> & Hb)%list_elem_of_fmap.
    unfold version_key. rewrite !Hv. intros Hka Hkb H1 H2.
    by rewrite (Hk a b ka kb).
Qed.

(** C4, as the code has it.  A second run for the same package, on the
    same releases, changes no [order] and issues no UPDATE when it reads
    the releases of the package in the order of the first run, and also,
    in whatever order it reads them, when no two of them have tied keys
    and the comparison of normalized versions is asymmetric with a
    transitive complement. *)
Theorem version_ordering_idempotent sender instance sender' instance' w w2 :
  NoDup (pk <$> releases w) ->
  Forall (fun r => verlib_returns r = true)
         (package_releases (package instance) w) ->
  package instance' = package instance ->
  package_releases (package instance) w2
  ≡ₚ package_releases (package instance)
       (snd (version_ordering sender (created_kwargs instance) w)) ->
  package_releases (package instance) w2
  = package_releases (package instance)
      (snd (version_ordering sender (created_kwargs instance) w)) \/
  ((forall x y, nv_lt x y = true -> nv_lt y x = false) /\
   (forall x y z, nv_lt y x = false -> nv_lt z y = false ->
                  nv_lt z x = false) /\
   no_tied_keys (package_releases (package instance) w)) ->
  fst (version_ordering sender (created_kwargs instance) w) = Ok tt /\
  version_ordering sender' (created_kwargs instance') w2 = (Ok tt, w2).
Proof.
  intros Hnd Hret Hp.
  destruct (version_ordering_rows sender instance w Hnd Hret)
    as (ds & vs & Hd & Hv & Hseq & Hperm & Hrun).
  rewrite Hrun. cbn [fst snd].
  assert (package_releases (package instance)
            {| releases := assign_positions (ds ++ vs) (releases w);
               updates := updates w ++ writes_of (enumerate (ds ++ vs)) |}
          = assign_positions (ds ++ vs)
              (package_releases (package instance) w)) as ->
    by apply assign_positions_package.
  set (rels := package_releases (package instance) w) in *.
  set (seq0 := ds ++ vs) in *.
  set (g := fun r => match position_of (pk r) seq0 with
                     | Some i => set_order r (Z.of_nat i)
                     | None => r
                     end).
  change (assign_positions seq0 rels) with (g <$> rels).
  intros Hperm2 Hcase. split; [done|].
  assert (forall x, version (g x) = version x) as Hgv.
  { intros x. unfold g. by destruct (position_of _ _). }
  assert (forall x, created (g x) = created x) as Hgc.
  { intros x. unfold g. by destruct (position_of _ _). }
  assert (computed_sequence (package_releases (package instance) w2)
          = Ok ((g <$> ds) ++ (g <$> vs))) as Hcomp.
  { apply (computed_sequence_reread (g <$> rels)).
    - apply Forall_fmap. eapply Forall_impl; [exact Hret|]. intros r Hr.
      simpl. by rewrite (verlib_returns_version r (g r)).
    - rewrite filter_fmap_same by (intros x; unfold is_dated; by rewrite Hgv).
      by apply list_sort_fmap; [intros x; rewrite Hgc|].
    - rewrite filter_fmap_same
        by (intros x; unfold is_versioned; by rewrite Hgv).
      apply list_sort_fmap; [|done]. intros x. unfold version_key.
      by rewrite Hgv.
    - done.
    - destruct Hcase as [?|(? & ? & ?)]; [by left|right].
      repeat split; try done; by apply no_tied_keys_fmap. }
  unfold created_kwargs. rewrite version_ordering_fires by done.
  rewrite Hp, Hcomp, <- fmap_app. fold seq0.
  rewrite update_loop_run.
  pose proof (assign_positions_settled seq0 Hseq) as Hs.
  change (assign_positions seq0 seq0) with (g <$> seq0) in Hs.
  rewrite (writes_of_settled _ Hs), app_nil_r.
  destruct w2 as [rows2 ups2]. cbn [releases updates]. f_equal. f_equal.
  rewrite <- (list_fmap_id rows2) at 2.
  apply list_fmap_ext. intros i r _. by apply foldl_step_row_settled.
Qed.

(** X17.  After a run, let a release be created whose normalized version
    is above all versions of the package, the comparison of normalized
    versions being asymmetric with a transitive complement.  If the next
    run reads the old releases in the order of the first run and the new
    one last, or reads them in any order while no two old releases have
    tied keys, it gives the new release the position N behind the N old
    ones and rewrites no other row: it issues one UPDATE, for the new
    release, or none when the new release already carries order N. *)
Theorem newest_release_is_appended sender sender' instance r_new w w2 kn :
  NoDup (pk <$> releases w) ->
  Forall (fun r => verlib_returns r = true)
         (package_releases (package instance) w) ->
  (forall x y, nv_lt x y = true -> nv_lt y x = false) ->
  (forall x y z, nv_lt y x = false -> nv_lt z y = false -> nv_lt z x = false) ->
  pk r_new ∉ pk <$> releases w ->
  package r_new = package instance ->
  version_key r_new = Ok kn ->
  (forall r k, r ∈ package_releases (package instance) w ->
               version_key r = Ok k -> nv_lt k kn = true) ->
  releases w2
  ≡ₚ releases (snd (version_ordering sender (created_kwargs instance) w))
     ++ [r_new] ->
  package_releases (package instance) w2
  = package_releases (package instance)
      (snd (version_ordering sender (created_kwargs instance) w)) ++ [r_new] \/
  no_tied_keys (package_releases (package instance) w) ->
  fst (version_ordering sender (created_kwargs instance) w) = Ok tt /\
  let n := Z.of_nat (length (package_releases (package instance) w)) in
  version_ordering sender' (created_kwargs r_new) w2
  = (Ok tt,
     {| releases := update_rows (pk r_new) n (releases w2);
        updates := updates w2 ++
                   (if decide (order r_new <> n)
                    then [(pk r_new, n)] else []) |}).
Proof.
  intros Hnd Hret Hasym Htrans Hfresh Hp Hkn Hmax.
  destruct (version_ordering_rows sender instance w Hnd Hret)
    as (ds & vs & Hd & Hv & Hseq & Hperm & Hrun).
  rewrite Hrun. cbn [fst snd].
  assert (package_releases (package instance)
            {| releases := assign_positions (ds ++ vs) (releases w);
               updates := updates w ++ writes_of (enumerate (ds ++ vs)) |}
          = assign_positions (ds ++ vs)
              (package_releases (package instance) w)) as ->
    by apply assign_positions_package.
  cbn [releases].
  set (rels := package_releases (package instance) w) in *.
  set (seq0 := ds ++ vs) in *.
  set (g := fun r => match position_of (pk r) seq0 with
                     | Some i => set_order r (Z.of_nat i)
                     | None => r
                     end).
  change (assign_positions seq0 rels) with (g <$> rels).
  change (assign_positions seq0 (releases w)) with (g <$> releases w).
  intros Hperm2 Hcase. split; [done|].
  assert (forall x, version (g x) = version x) as Hgv.
  { intros x. unfold g. by destruct (position_of _ _). }
  assert (forall x, created (g x) = created x) as Hgc.
  { intros x. unfold g. by destruct (position_of _ _). }
  assert (forall x, pk (g x) = pk x) as Hgk.
  { intros x. unfold g. by destruct (position_of _ _). }
  assert (forall x, package (g x) = package x) as Hgp.
  { intros x. unfold g. by destruct (position_of _ _). }
  assert (forall x, version_key (g x) = version_key x) as Hgkey.
  { intros x. unfold version_key. by rewrite Hgv. }
  (* the rows of the package in the second read *)
  assert (package_releases (package instance) w2 ≡ₚ (g <$> rels) ++ [r_new])
    as Hrels2.
  { unfold package_releases at 1. rewrite Hperm2.
    rewrite filter_app, (filter_singleton_True _ r_new []) by done.
    by rewrite filter_fmap_same by (intros x; by rewrite Hgp). }
  (* the sequence of the second run *)
  assert (computed_sequence (package_releases (package instance) w2)
          = Ok ((g <$> ds) ++ (g <$> vs) ++ [r_new])) as Hcomp.
  { apply (computed_sequence_reread ((g <$> rels) ++ [r_new])).
    - apply Forall_app. split.
      + apply Forall_fmap. eapply Forall_impl; [exact Hret|]. intros r Hr.
        simpl. by rewrite (verlib_returns_version r (g r)).
      + constructor; [by eapply version_key_returns|constructor].
    - rewrite filter_app, (filter_singleton_False _ r_new [])
        by (rewrite (version_key_not_dated _ _ Hkn); by intros []).
      rewrite app_nil_r.
      rewrite filter_fmap_same by (intros x; unfold is_dated; by rewrite Hgv).
      by apply list_sort_fmap; [intros x; rewrite Hgc|].
    - rewrite filter_app, (filter_singleton_True _ r_new [])
        by (apply Is_true_true; by eapply version_key_versioned).
      rewrite filter_fmap_same
        by (intros x; unfold is_versioned; by rewrite Hgv).
      apply (list_sort_snoc_max nv_lt version_key _ (g <$> vs) r_new kn Hasym);
        [by apply list_sort_fmap|done|].
      intros x k (r & -> & [_ Hr]%list_elem_of_filter)%list_elem_of_fmap.
      rewrite Hgkey. by apply Hmax.
    - done.
    - destruct Hcase as [?|Hties]; [by left|right].
      split; [done|]. split; [done|].
      apply (no_tied_keys_fmap g) in Hties as [Hdt Hvt]; [|done..].
      split.
      + intros a b [Ha|Ha%list_elem_of_singleton]%elem_of_app
          [Hb|Hb%list_elem_of_singleton]%elem_of_app Hda Hdb E; subst;
          try by rewrite (version_key_not_dated _ _ Hkn) in *.
        by apply Hdt.
      + intros a b ka kb [Ha|Ha%list_elem_of_singleton]%elem_of_app
          [Hb|Hb%list_elem_of_singleton]%elem_of_app Hka Hkb H1 H2; subst.
        * by apply (Hvt a b ka kb).
        * assert (kb = kn) as -> by congruence.
          apply list_elem_of_fmap in Ha as (r & -> & Hr).
          rewrite Hgkey in Hka. rewrite (Hmax r ka Hr Hka) in H1. done.
        * assert (ka = kn) as -> by congruence.
          apply list_elem_of_fmap in Hb as (r & -> & Hr).
          rewrite Hgkey in Hkb. rewrite (Hmax r kb Hr Hkb) in H2. done.
        * done. }
  (* the second loop *)
  unfold created_kwargs. rewrite version_ordering_fires by done.
  rewrite Hp, Hcomp, app_assoc, <- fmap_app. fold seq0.
  rewrite update_loop_run.
  unfold enumerate. rewrite enumerate_from_app. simpl.
  rewrite length_fmap.
  assert (length seq0 = length rels) as Hlen by (by rewrite Hperm).
  pose proof (assign_positions_settled seq0 Hseq) as Hs.
  change (assign_positions seq0 seq0) with (g <$> seq0) in Hs.
  unfold enumerate in Hs. rewrite Hlen.
  f_equal. f_equal.
  - unfold update_rows. apply list_fmap_ext. intros i r Hi.
    rewrite foldl_app. simpl.
    rewrite (foldl_step_row_settled _ _ Hs). unfold step_row. cbn [fst snd].
    destruct (decide (order r_new <> Z.of_nat (length rels))) as [|He];
      [done|].
    destruct (decide (pk r = pk r_new)) as [E|]; [|done].
    apply dec_stable in He.
    apply list_elem_of_lookup_2 in Hi. rewrite Hperm2 in Hi.
    apply elem_of_app in Hi as [Hi|Hi%list_elem_of_singleton].
    + exfalso. apply list_elem_of_fmap in Hi as (r0 & -> & Hr0).
      apply Hfresh. rewrite <- E, Hgk. by apply list_elem_of_fmap_2.
    + subst r. by rewrite <- He, set_order_id.
  - unfold writes_of. rewrite omap_app.
    fold (writes_of (enumerate_from 0 (g <$> seq0))).
    rewrite (writes_of_settled _ Hs). csimpl.
    by destruct (decide (order r_new <> Z.of_nat (length rels))).
Qed.
End SecondRead.

(** C4 as stated fails: the two dated releases were created at the same
    time; the first run gave "2023-01-dev" 0 and "2022-beta" 1; a second
    run that reads the same two rows in the other order swaps the two
    orders and writes both. *)
Lemma second_run_rewrites_tied_releases :
  package_releases (package r_beta) tied_world_reread
  ≡ₚ package_releases (package r_beta) tied_world_after /\
  (fun r => (pk r, order r)) <$> releases tied_world_reread
  = [(5, 1); (1, 0)] /\
  fst (version_ordering Release_class (created_kwargs r_beta)
         tied_world_reread) = Ok tt /\
  (fun r => (pk r, order r))
    <$> releases (snd (version_ordering Release_class (created_kwargs r_beta)
                         tied_world_reread))
  = [(5, 0); (1, 1)] /\
  updates (snd (version_ordering Release_class (created_kwargs r_beta)
                  tied_world_reread))
  = updates tied_world_reread ++ [(5, 0); (1, 1)].
Proof.
  split; [|by vm_compute].
  unfold package_releases, tied_world_reread. cbn [releases].
  by rewrite reverse_Permutation.
Qed.

Ltac split_elem_of H :=
  repeat (apply elem_of_cons in H as [->|H]); try (by apply elem_of_nil in H).

Lemma demo_world_no_tied_keys :
  no_tied_keys (package_releases (package r_1_0) demo_world).
Proof.
  change (package_releases (package r_1_0) demo_world)
    with [r_2_0; r_dev; r_1_0].
  split.
  - intros a b Ha Hb Hda Hdb _. split_elem_of Ha; split_elem_of Hb;
      try done; by vm_compute in Hda, Hdb.
  - intros a b ka kb Ha Hb Hka Hkb H1 H2.
    split_elem_of Ha; split_elem_of Hb; try done;
      vm_compute in Hka, Hkb; simplify_eq; by vm_compute in H1, H2.
Qed.

Lemma version_ordering_idempotent_witness :
  fst (version_ordering Release_class (created_kwargs r_1_0) demo_world)
  = Ok tt /\
  version_ordering Release_class (created_kwargs r_2_0) demo_world_reread
  = (Ok tt, demo_world_reread).
Proof.
  apply (version_ordering_idempotent Release_class r_1_0 Release_class r_2_0
           demo_world demo_world_reread);
    [by_computation|by_computation|reflexivity| |].
  - unfold package_releases, demo_world_reread. cbn [releases].
    by rewrite reverse_Permutation.
  - right. split; [exact lex_lt_asym|].
    split; [exact lex_lt_complement_trans|exact demo_world_no_tied_keys].
Defined.

(** The rows of [demo_world_reread] come in another order than the first
    run left them. *)
Example demo_world_reread_order :
  pk <$> releases demo_world_reread = [3; 4; 1; 2] /\
  pk <$> releases (snd (version_ordering Release_class (created_kwargs r_1_0)
                          demo_world)) = [2; 1; 4; 3].
Proof. by vm_compute. Qed.

Lemma world_before_2_0_no_tied_keys :
  no_tied_keys (package_releases (package r_1_0) world_before_2_0).
Proof.
  change (package_releases (package r_1_0) world_before_2_0)
    with [r_1_0; r_dev].
  split.
  - intros a b Ha Hb Hda Hdb _. split_elem_of Ha; split_elem_of Hb;
      try done; by vm_compute in Hda, Hdb.
  - intros a b ka kb Ha Hb Hka Hkb H1 H2.
    split_elem_of Ha; split_elem_of Hb; try done;
      vm_compute in Hka, Hkb; simplify_eq.
Qed.

Lemma newest_release_is_appended_witness :
  fst (version_ordering Release_class (created_kwargs r_1_0) world_before_2_0)
  = Ok tt /\
  let n := Z.of_nat (length (package_releases (package r_1_0)
                               world_before_2_0)) in
  version_ordering Release_class (created_kwargs r_2_0) world_with_2_0
  = (Ok tt,
     {| releases := update_rows (pk r_2_0) n (releases world_with_2_0);
        updates := updates world_with_2_0 ++
                   (if decide (order r_2_0 <> n)
                    then [(pk r_2_0, n)] else []) |}).
Proof.
  apply (newest_release_is_appended (V := dotted_verlib) Release_class
           Release_class r_1_0 r_2_0 world_before_2_0 world_with_2_0
           ([2; 0] : @NormalizedVersionT dotted_verlib));
    [by_computation|by_computation|exact lex_lt_asym
    |exact lex_lt_complement_trans|by_computation
    |reflexivity|reflexivity| | |].
  - intros r k Hin Hk.
    apply elem_of_cons in Hin as [->|Hin].
    + vm_compute in Hk. by injection Hk as <-.
    + apply list_elem_of_singleton in Hin as ->. vm_compute in Hk. discriminate.
  - unfold world_with_2_0. cbn [releases]. apply Permutation_cons_append.
  - right. exact world_before_2_0_no_tied_keys.
Defined.

(** In that example the new row is read first, "2.0" gets order 2 and is
    the only row written. *)
Example newest_release_example :
  (fun r => (version r, order r)) <$> releases world_with_2_0
  = [("2.0", 0); ("1.0", 1); ("2023-01-dev", 0)] /\
  (fun r => (version r, order r))
    <$> releases (snd (version_ordering Release_class (created_kwargs r_2_0)
                         world_with_2_0))
  = [("2.0", 2); ("1.0", 1); ("2023-01-dev", 0)] /\
  updates (snd (version_ordering Release_class (created_kwargs r_2_0)
                  world_with_2_0))
  = updates world_with_2_0 ++ [(2, 2)].
Proof. by vm_compute. Qed.
